(** * SimpleImageViewer: the image inventory endpoint [pages/api/images.ts]

    A shallow embedding of the directory scanner [getImageFiles] and of the
    cached request [handler], and the properties of the inventory they
    produce.

    Conventions of the embedding.
    - JavaScript strings are [string]s (byte strings); the scanner never
      looks inside a character except to lower-case an extension and to
      replace backslashes.
    - The host file system is a finite tree of [node]s.  Each constructor
      records what the calls of the [fs] module answer on that entry:
      [readdirSync] either lists a directory or throws, [statSync] either
      gives a size or throws, and a [Dirent] is a directory, a regular file
      or neither.
    - [try { ... } catch] is resolved inside the functions: what the catch
      block leaves behind is what the function returns.
    - The module-level variables [cachedImages] and [cacheTimestamp] are the
      record [Cache], passed in and out of [handler].
    - The page [pages/index.tsx] is the record [Gallery.State] of its React
      state and one function per handler, from the state of the render in
      which the handler runs to the state it sets. *)

From Stdlib Require Import Bool Arith List ZArith NArith Lia Sorted.
From Stdlib Require Import Ascii String.
Import ListNotations.

Set Warnings "-register-all".

Local Open Scope string_scope.
Local Open Scope list_scope.

(** ** Strings *)

Module Str.

Definition is_empty (s : string) : bool :=
  match s with
  | EmptyString => true
  | String _ _ => false
  end.

(** [s.toLowerCase()] on the ASCII range; bytes of other characters are
    kept (no character outside ASCII lower-cases to a letter of the
    extension allow-list). *)
Definition lower_ascii (c : ascii) : ascii :=
  let n := nat_of_ascii c in
  if (65 <=? n)%nat && (n <=? 90)%nat then ascii_of_nat (n + 32) else c.

Fixpoint toLowerCase (s : string) : string :=
  match s with
  | EmptyString => EmptyString
  | String c s' => String (lower_ascii c) (toLowerCase s')
  end.

Definition backslash : ascii := "\"%char.
Definition slash : ascii := "/"%char.

(** [s.replace(/\\/g, "/")] *)
Fixpoint replace_backslashes (s : string) : string :=
  match s with
  | EmptyString => EmptyString
  | String c s' =>
      String (if Ascii.eqb c backslash then slash else c)
             (replace_backslashes s')
  end.

(** [c] occurs in [s] *)
Fixpoint mem (c : ascii) (s : string) : bool :=
  match s with
  | EmptyString => false
  | String c' s' => Ascii.eqb c c' || mem c s'
  end.

(** [arr.includes(s)] on an array of strings *)
Fixpoint includes (arr : list string) (s : string) : bool :=
  match arr with
  | [] => false
  | x :: arr' => String.eqb x s || includes arr' s
  end.

End Str.

(** ** The [path] module of the host *)

Inductive platform : Type :=
| Posix
| Win32.

Module Path.

(** [path.sep] *)
Definition sep (p : platform) : ascii :=
  match p with
  | Posix => "/"%char
  | Win32 => "\"%char
  end.

(** [path.join(a, b)] where [a] is a normalized path that does not end in
    the separator and [b] a directory entry name or a fixed segment: the
    two joined by the host separator.  (Entry names are never empty, [.]
    or [..] and hold no separator, so the normalization step of
    [path.join] changes nothing.) *)
Definition join (p : platform) (a b : string) : string :=
  a ++ String (sep p) b.

(** [s] ends with the character [c]. *)
Fixpoint endsWith (c : ascii) (s : string) : bool :=
  match s with
  | EmptyString => false
  | String x EmptyString => Ascii.eqb x c
  | String _ s' => endsWith c s'
  end.

(** [path.join(a, b)] where [a] is an absolute normalized path, which ends
    in the separator when it is a root ([/], [C:\]): no second separator
    is put after a root. *)
Definition joinAbsolute (p : platform) (a b : string) : string :=
  if endsWith (sep p) a then a ++ b else join p a b.

(** The part of [s] from its last ["."] on, if it has one. *)
Fixpoint from_last_dot (s : string) : option string :=
  match s with
  | EmptyString => None
  | String c s' =>
      match from_last_dot s' with
      | Some e => Some e
      | None => if Ascii.eqb c "."%char then Some s else None
      end
  end.

(** [path.extname(name)] on an entry name (its last portion is the whole
    name): from the last ["."] to the end; empty when there is no ["."]
    other than a first character, and for [".."]. *)
Definition extname (name : string) : string :=
  match name with
  | EmptyString => EmptyString
  | String _ rest =>
      if String.eqb name ".." then EmptyString
      else match from_last_dot rest with
           | Some e => e
           | None => EmptyString
           end
  end.

End Path.

(** ** Data model *)

(** [interface ImageData] *)
Record ImageData : Type := mkImageData {
  name : string;
  url : string;
  path : string;
  directory : string;
  size : N
}.

(** What the file system holds under one name.
    - [RegularFile stat]: [isFile()] holds; [statSync] answers [Some size]
      or throws ([None]).
    - [Directory items]: [isDirectory()] holds; [readdirSync] lists [items],
      in this order.
    - [UnreadableDirectory]: [isDirectory()] holds; [readdirSync] throws.
    - [SymbolicLink target]: a link to [target]; its [Dirent] is neither
      [isDirectory()] nor [isFile()], whatever the target is.
    - [Special]: a socket, FIFO or device; neither [isDirectory()] nor
      [isFile()] holds. *)
Inductive node : Type :=
| RegularFile (stat : option N)
| Directory (items : list (string * node))
| UnreadableDirectory
| SymbolicLink (target : node)
| Special.

Definition isDirectory (item : node) : bool :=
  match item with
  | Directory _ | UnreadableDirectory => true
  | _ => false
  end.

Definition isFile (item : node) : bool :=
  match item with
  | RegularFile _ => true
  | _ => false
  end.

(** ** The scanner *)

Definition imageExtensions : list string :=
  [".jpg"; ".jpeg"; ".png"; ".gif"; ".webp"; ".svg"].

(** The label of the scan root in the [directory] field. *)
Definition rootLabel : string := "根目录".

(** [imageExtensions.includes(path.extname(item.name).toLowerCase())] *)
Definition hasImageExtension (itemName : string) : bool :=
  Str.includes imageExtensions (Str.toLowerCase (Path.extname itemName)).

(** [relativePath ? path.join(relativePath, item.name) : item.name] *)
Definition relativeItemPath (p : platform) (relativePath itemName : string)
  : string :=
  if Str.is_empty relativePath then itemName
  else Path.join p relativePath itemName.

(** The object pushed for a recognized file. *)
Definition describe (p : platform) (relativePath itemName : string)
    (fileSize : N) : ImageData :=
  let rel := relativeItemPath p relativePath itemName in
  {| name := itemName;
     url := "/images/" ++ Str.replace_backslashes rel;
     path := rel;
     directory := if Str.is_empty relativePath then rootLabel
                  else relativePath;
     size := fileSize |}.

(** [getImageFiles(dirPath, relativePath)], where [dir] is what the file
    system holds at [dirPath].  The result is the array [images] at the
    [return]: the pushes made by the loop up to its end, or up to the first
    exception thrown inside the [try] block ([readdirSync] at the start,
    [statSync] in the middle of the loop), which the [catch] only logs.
    ([dir] is a [SymbolicLink] in no call: the root is given resolved, and
    the loop does not enter a link.) *)
Fixpoint getImageFiles (p : platform) (dirPath relativePath : string)
    (dir : node) {struct dir} : list ImageData :=
  match dir with
  | Directory items =>
      (fix loop (items : list (string * node)) : list ImageData :=
         match items with
         | [] => []
         | (itemName, item) :: rest =>
             let fullPath := Path.join p dirPath itemName in
             match item with
             | Directory _ | UnreadableDirectory =>
                 getImageFiles p fullPath
                   (relativeItemPath p relativePath itemName) item
                 ++ loop rest
             | RegularFile stat =>
                 if hasImageExtension itemName then
                   match stat with
                   | Some fileSize =>
                       describe p relativePath itemName fileSize :: loop rest
                   | None => []
                   end
                 else loop rest
             | SymbolicLink _ | Special => loop rest
             end
         end) items
  | RegularFile _ | UnreadableDirectory | SymbolicLink _ | Special => []
  end.

(** The loop of [getImageFiles] over the entries still to visit. *)
Fixpoint scanItems (p : platform) (dirPath relativePath : string)
    (items : list (string * node)) : list ImageData :=
  match items with
  | [] => []
  | (itemName, item) :: rest =>
      if isDirectory item then
        getImageFiles p (Path.join p dirPath itemName)
          (relativeItemPath p relativePath itemName) item
        ++ scanItems p dirPath relativePath rest
      else if isFile item then
        if hasImageExtension itemName then
          match item with
          | RegularFile (Some fileSize) =>
              describe p relativePath itemName fileSize
              :: scanItems p dirPath relativePath rest
          | _ => []
          end
        else scanItems p dirPath relativePath rest
      else scanItems p dirPath relativePath rest
  end.

(** ** The cached handler *)

(** What a call that may throw produces. *)
Inductive outcome (A : Type) : Type :=
| Returns (a : A)
| Throws (error : string).
Arguments Returns {A} a.
Arguments Throws {A} error.

(** The module-level variables [cachedImages] and [cacheTimestamp]. *)
Record Cache : Type := mkCache {
  cachedImages : option (list ImageData);
  cacheTimestamp : Z
}.

(** Their values when the module is loaded. *)
Definition initialCache : Cache :=
  {| cachedImages := None; cacheTimestamp := 0 |}.

Definition CACHE_DURATION : Z := 30 * 1000.

(** What the handler reads from its surroundings during one call:
    [Date.now()], [process.cwd()] (which throws when the working directory
    is gone) and the file system, as the entry an absolute path resolves
    to, symbolic links followed as [existsSync] and [readdirSync] follow
    them ([None] when nothing is reached). *)
Record Env : Type := mkEnv {
  now : Z;
  cwd : outcome string;
  lookup : string -> option node
}.


(** The JSON body written to the response. *)
Inductive Body : Type :=
| ImagesBody (images : list ImageData)
| MessageBody (message : string) (error : option string).

Record Response : Type := mkResponse {
  status : Z;
  headers : list (string * string);
  body : Body
}.

Definition cacheHeader : string * string :=
  ("Cache-Control", "public, max-age=30, s-maxage=30").

Definition ok (images : list ImageData) : Response :=
  {| status := 200; headers := [cacheHeader]; body := ImagesBody images |}.

Definition methodNotAllowed : Response :=
  {| status := 405; headers := [];
     body := MessageBody "Method not allowed" None |}.

Definition serverError (error : string) : Response :=
  {| status := 500; headers := [];
     body := MessageBody "Error reading images directory" (Some error) |}.

(** [cachedImages && (now - cacheTimestamp) < CACHE_DURATION]: the cached
    array when the test passes (an empty array is truthy). *)
Definition freshCache (c : Cache) (t : Z) : option (list ImageData) :=
  match cachedImages c with
  | Some images =>
      if (t - cacheTimestamp c <? CACHE_DURATION)%Z then Some images else None
  | None => None
  end.

(** [path.join(process.cwd(), "public", "images")] *)
Definition imagesDirectory (p : platform) (workdir : string) : string :=
  Path.join p (Path.joinAbsolute p workdir "public") "images".

(** [handler(req, res)]: the response written and the cache left behind.
    [method] is [req.method].  Inside the [try] block only [process.cwd()]
    can throw: [getImageFiles] catches what its own calls throw. *)
Definition handler (p : platform) (env : Env) (c : Cache) (method : string)
  : Response * Cache :=
  if negb (String.eqb method "GET") then (methodNotAllowed, c)
  else
    match freshCache c (now env) with
    | Some images => (ok images, c)
    | None =>
        match cwd env with
        | Throws error => (serverError error, c)
        | Returns workdir =>
            match lookup env (imagesDirectory p workdir) with
            | None =>
                (* [!fs.existsSync(imagesDirectory)] *)
                (ok [], {| cachedImages := Some []; cacheTimestamp := now env |})
            | Some root =>
                let images :=
                  getImageFiles p (imagesDirectory p workdir) "" root in
                (ok images,
                 {| cachedImages := Some images; cacheTimestamp := now env |})
            end
        end
    end.

(** ** Trees used to state the properties *)

(** Every entry name of the tree passes [good]. *)
Fixpoint allNames (good : string -> bool) (t : node) : bool :=
  match t with
  | Directory items =>
      forallb (fun entry => good (fst entry) && allNames good (snd entry))
              items
  | _ => true
  end.

Definition namesNonEmpty : node -> bool :=
  allNames (fun itemName => negb (Str.is_empty itemName)).

(** Names as a file system of the host gives them: not empty and without
    the host separator. *)
Definition validName (p : platform) (itemName : string) : bool :=
  negb (Str.is_empty itemName) && negb (Str.mem (Path.sep p) itemName).

Definition wellNamed (p : platform) : node -> bool := allNames (validName p).

(** No listing of the tree holds a name twice. *)
Fixpoint distinctNames (t : node) : Prop :=
  match t with
  | Directory items =>
      NoDup (map fst items)
      /\ (fix each (items : list (string * node)) : Prop :=
            match items with
            | [] => True
            | entry :: rest => distinctNames (snd entry) /\ each rest
            end) items
  | _ => True
  end.

(** Every directory of the tree can be listed and every regular file can be
    [stat]ed. *)
Fixpoint readable (t : node) : bool :=
  match t with
  | RegularFile stat => match stat with Some _ => true | None => false end
  | Directory items => forallb (fun entry => readable (snd entry)) items
  | UnreadableDirectory => false
  | SymbolicLink _ | Special => true
  end.

(** The regular files of a tree, each once: the chain of folders from the
    root of the tree down to the file, the file's name, and its size (for a
    file that cannot be [stat]ed, nothing). *)
Fixpoint filesOf (t : node) : list (list string * string * N) :=
  match t with
  | Directory items =>
      (fix each (items : list (string * node)) :=
         match items with
         | [] => []
         | (itemName, item) :: rest =>
             match item with
             | RegularFile (Some fileSize) => [([], itemName, fileSize)]
             | RegularFile None => []
             | Directory _ =>
                 map (fun f => (itemName :: fst (fst f), snd (fst f), snd f))
                     (filesOf item)
             | UnreadableDirectory | SymbolicLink _ | Special => []
             end ++ each rest
         end) items
  | _ => []
  end.

(** Path segments joined by the host separator. *)
Fixpoint joinAll (p : platform) (segments : list string) : string :=
  match segments with
  | [] => EmptyString
  | [s] => s
  | s :: rest => Path.join p s (joinAll p rest)
  end.

(** The descriptor the specification asks for a file reached through
    [folders]. *)
Definition descriptorAt (p : platform) (f : list string * string * N)
  : ImageData :=
  let '(folders, fileName, fileSize) := f in
  let rel := joinAll p (folders ++ [fileName]) in
  {| name := fileName;
     url := "/images/" ++ Str.replace_backslashes rel;
     path := rel;
     directory := match folders with
                  | [] => rootLabel
                  | _ => joinAll p folders
                  end;
     size := fileSize |}.

(** The test of the allow-list on an element of [filesOf]. *)
Definition recognized (f : list string * string * N) : bool :=
  hasImageExtension (snd (fst f)).

(** An element of [filesOf], seen from [folders] further up. *)
Definition below (folders : list string) (f : list string * string * N)
  : list string * string * N :=
  (folders ++ fst (fst f), snd (fst f), snd f).

(** What [relativePath] puts in front of an entry name. *)
Definition under (p : platform) (relativePath : string) : string :=
  if Str.is_empty relativePath then EmptyString
  else relativePath ++ String (Path.sep p) EmptyString.

(** What may follow an entry name in a relative path: nothing, or a
    separator and more. *)
Definition continues (p : platform) (s : string) : Prop :=
  match s with
  | EmptyString => True
  | String c _ => c = Path.sep p
  end.

(** The loop over [items] runs to its end: [statSync] throws on none of the
    recognized files directly among them. *)
Definition loopCompletes (items : list (string * node)) : bool :=
  forallb (fun entry =>
             match snd entry with
             | RegularFile None => negb (hasImageExtension (fst entry))
             | _ => true
             end) items.

(** The example of the specification: [a.png] (10 bytes) and a folder [b]
    holding [c.jpg] (20 bytes) and [notes.txt]. *)
Definition exampleRoot : node :=
  Directory [("a.png", RegularFile (Some 10%N));
             ("b", Directory [("c.jpg", RegularFile (Some 20%N));
                              ("notes.txt", RegularFile (Some 5%N))])].

(** ** Induction over file trees *)

Section node_induction.

Variable P : node -> Prop.
Hypothesis P_file : forall stat, P (RegularFile stat).
Hypothesis P_directory :
  forall items, Forall (fun entry => P (snd entry)) items ->
                P (Directory items).
Hypothesis P_unreadable : P UnreadableDirectory.
Hypothesis P_link : forall target, P (SymbolicLink target).
Hypothesis P_special : P Special.

Fixpoint node_tree_ind (t : node) : P t :=
  match t with
  | RegularFile stat => P_file stat
  | Directory items =>
      P_directory items
        ((fix each (items : list (string * node))
            : Forall (fun entry => P (snd entry)) items :=
            match items with
            | [] => Forall_nil _
            | entry :: rest =>
                Forall_cons entry (node_tree_ind (snd entry)) (each rest)
            end) items)
  | UnreadableDirectory => P_unreadable
  | SymbolicLink target => P_link target
  | Special => P_special
  end.

End node_induction.

(** Images at depths 0, 1 and 3. *)
Definition deepRoot : node :=
  Directory
    [("top.png", RegularFile (Some 1%N));
     ("x", Directory
             [("mid.GIF", RegularFile (Some 2%N));
              ("y", Directory
                      [("z", Directory
                               [("deep.svg", RegularFile (Some 3%N));
                                ("readme.md", RegularFile (Some 4%N))])])])].

(** A file system with [root] at [/app/public/images] and nothing else. *)
Definition serving (root : option node) (t : Z) : Env :=
  {| now := t;
     cwd := Returns "/app";
     lookup := fun absPath =>
                 if String.eqb absPath "/app/public/images" then root
                 else None |}.

(** A cache filled at time [1000] with the example inventory. *)
Definition warmCache : Cache :=
  {| cachedImages :=
       Some (getImageFiles Posix "/app/public/images" "" exampleRoot);
     cacheTimestamp := 1000 |}.

(** The entry names of the tree hold no backslash. *)
Definition noBackslash : node -> bool :=
  allNames (fun itemName => negb (Str.mem Str.backslash itemName)).

(** [readdirSync] answers with a listing on [t]. *)
Definition listable (t : node) : bool :=
  match t with
  | Directory _ => true
  | _ => false
  end.

(** ** Successive requests *)

(** The handler called once per request, in order, on the cache left by
    the request before: each request comes with what the handler reads
    during it and with its method. *)
Fixpoint serveAll (p : platform) (c : Cache) (requests : list (Env * string))
  : list Response * Cache :=
  match requests with
  | [] => ([], c)
  | (env, method) :: rest =>
      let (response, c') := handler p env c method in
      let (responses, c'') := serveAll p c' rest in
      (response :: responses, c'')
  end.

(** What a scan started by the handler during [env] finds: the inventory
    of the root, or none when there is no root. *)
Definition scanOf (p : platform) (env : Env) (workdir : string)
  : list ImageData :=
  match lookup env (imagesDirectory p workdir) with
  | Some root => getImageFiles p (imagesDirectory p workdir) "" root
  | None => []
  end.

(** The entry names of the tree hold neither a slash nor a backslash. *)
Definition plainNames : node -> bool :=
  allNames (fun itemName =>
              negb (Str.mem Str.slash itemName)
              && negb (Str.mem Str.backslash itemName)).

(** ** The gallery page [pages/index.tsx] *)

Module Gallery.

(** A JavaScript [Set] of strings: its elements in insertion order, each
    once. *)
Definition StringSet : Type := list string.

(** [s.has(x)] *)
Definition has (s : StringSet) (x : string) : bool :=
  existsb (String.eqb x) s.

(** [s.add(x)] *)
Definition add (s : StringSet) (x : string) : StringSet :=
  if has s x then s else s ++ [x].

(** [s.delete(x)] *)
Definition delete (s : StringSet) (x : string) : StringSet :=
  filter (fun y => negb (String.eqb x y)) s.

(** [new Set(xs)] *)
Definition fromArray (xs : list string) : StringSet :=
  fold_left add xs [].

(** The state of the component [Home] (the colour mode apart). *)
Record State : Type := mkState {
  images : list ImageData;
  selectedImage : option ImageData;
  loading : bool;
  selectedDirectory : string;
  searchQuery : string;
  imageLoading : bool;
  selectedImages : StringSet;
  isSelectionMode : bool
}.

(** The state at the first render. *)
Definition initialState : State :=
  {| images := []; selectedImage := None; loading := true;
     selectedDirectory := ""; searchQuery := ""; imageLoading := false;
     selectedImages := []; isSelectionMode := false |}.

Definition setImages (st : State) (v : list ImageData) : State :=
  {| images := v; selectedImage := selectedImage st; loading := loading st;
     selectedDirectory := selectedDirectory st;
     searchQuery := searchQuery st; imageLoading := imageLoading st;
     selectedImages := selectedImages st;
     isSelectionMode := isSelectionMode st |}.

Definition setSelectedImage (st : State) (v : option ImageData) : State :=
  {| images := images st; selectedImage := v; loading := loading st;
     selectedDirectory := selectedDirectory st;
     searchQuery := searchQuery st; imageLoading := imageLoading st;
     selectedImages := selectedImages st;
     isSelectionMode := isSelectionMode st |}.

Definition setLoading (st : State) (v : bool) : State :=
  {| images := images st; selectedImage := selectedImage st; loading := v;
     selectedDirectory := selectedDirectory st;
     searchQuery := searchQuery st; imageLoading := imageLoading st;
     selectedImages := selectedImages st;
     isSelectionMode := isSelectionMode st |}.

Definition setImageLoading (st : State) (v : bool) : State :=
  {| images := images st; selectedImage := selectedImage st;
     loading := loading st; selectedDirectory := selectedDirectory st;
     searchQuery := searchQuery st; imageLoading := v;
     selectedImages := selectedImages st;
     isSelectionMode := isSelectionMode st |}.

Definition setSelectedImages (st : State) (v : StringSet) : State :=
  {| images := images st; selectedImage := selectedImage st;
     loading := loading st; selectedDirectory := selectedDirectory st;
     searchQuery := searchQuery st; imageLoading := imageLoading st;
     selectedImages := v; isSelectionMode := isSelectionMode st |}.

Definition setIsSelectionMode (st : State) (v : bool) : State :=
  {| images := images st; selectedImage := selectedImage st;
     loading := loading st; selectedDirectory := selectedDirectory st;
     searchQuery := searchQuery st; imageLoading := imageLoading st;
     selectedImages := selectedImages st; isSelectionMode := v |}.

Definition setSelectedDirectory (st : State) (v : string) : State :=
  {| images := images st; selectedImage := selectedImage st;
     loading := loading st; selectedDirectory := v;
     searchQuery := searchQuery st; imageLoading := imageLoading st;
     selectedImages := selectedImages st;
     isSelectionMode := isSelectionMode st |}.

Definition setSearchQuery (st : State) (v : string) : State :=
  {| images := images st; selectedImage := selectedImage st;
     loading := loading st; selectedDirectory := selectedDirectory st;
     searchQuery := v; imageLoading := imageLoading st;
     selectedImages := selectedImages st;
     isSelectionMode := isSelectionMode st |}.

(** [fetchImages], given what [fetch('/api/images')] produced (a response,
    or an exception): the state once the [finally] block has run. *)
Definition fetchImages (st : State) (fetched : outcome Response) : State :=
  match fetched with
  | Returns response =>
      if (200 <=? status response)%Z && (status response <=? 299)%Z then
        (* [response.ok]; [data.images || []] *)
        setLoading
          (setImages st
             match body response with
             | ImagesBody inventory => inventory
             | MessageBody _ _ => []
             end)
          false
      else setLoading st false
  | Throws _ => setLoading st false
  end.

(** [s.includes(q)] on strings: [q] occurs in [s]. *)
Fixpoint includesString (s q : string) : bool :=
  String.prefix q s
  || match s with
     | EmptyString => false
     | String _ s' => includesString s' q
     end.

Section host.

(** [String.prototype.toLowerCase] of the browser. *)
Variable toLowerCase : string -> string.

(** The order of [Array.prototype.sort()] without comparator on strings
    (by code units): [before a b] when [a] is not after [b]. *)
Variable before : string -> string -> bool.

(** [k] names a property of [Object.prototype]. *)
Variable inherited : string -> bool.

(** The test of [images.filter] in [filteredImages]. *)
Definition matches (selected query : string) (img : ImageData) : bool :=
  (if Str.is_empty selected then true
   else String.eqb (directory img) selected)
  && (if Str.is_empty query then true
      else includesString (toLowerCase (name img)) (toLowerCase query)).

Definition filteredImages (st : State) : list ImageData :=
  filter (matches (selectedDirectory st) (searchQuery st)) (images st).

(** [arr.sort()] on strings: the elements in the order [before]. *)
Fixpoint insertSorted (x : string) (sorted : list string) : list string :=
  match sorted with
  | [] => [x]
  | y :: rest => if before x y then x :: sorted else y :: insertSorted x rest
  end.

Fixpoint sortStrings (xs : list string) : list string :=
  match xs with
  | [] => []
  | x :: rest => insertSorted x (sortStrings rest)
  end.

(** [Array.from(new Set(images.map((img) => img.directory))).sort()] *)
Definition directories (st : State) : list string :=
  sortStrings (fromArray (map directory (images st))).

(** A value read from the object [counts]: a number, or something else (a
    function or object of [Object.prototype], or the text that [+ 1] makes
    of one): truthy, and [+ 1] makes a text of it. *)
Inductive CountValue : Type :=
| Counted (n : N)
| Other.

(** [counts[k]]: the own property when there is one (the object is its own
    properties, in insertion order), else what [Object.prototype] has under
    [k], which is truthy and not a number, else [undefined]. *)
Definition getCount (counts : list (string * CountValue)) (k : string)
  : option CountValue :=
  match find (fun entry => String.eqb (fst entry) k) counts with
  | Some entry => Some (snd entry)
  | None => if inherited k then Some Other else None
  end.

(** [counts[k] = v] *)
Definition setCount (counts : list (string * CountValue)) (k : string)
    (v : CountValue) : list (string * CountValue) :=
  if existsb (fun entry => String.eqb (fst entry) k) counts then
    map (fun entry => if String.eqb (fst entry) k then (k, v) else entry)
        counts
  else counts ++ [(k, v)].

(** [(v || 0) + 1] *)
Definition plusOne (v : option CountValue) : CountValue :=
  match v with
  | Some (Counted n) => Counted (n + 1)
  | Some Other => Other
  | None => Counted 1
  end.

(** [directoryImageCounts]: the object [counts] after the [forEach]. *)
Definition directoryImageCounts (st : State) : list (string * CountValue) :=
  fold_left
    (fun counts img =>
       setCount counts (directory img)
                (plusOne (getCount counts (directory img))))
    (images st) [].

(** [filteredImages.findIndex(img => img.url === sel.url)] *)
Fixpoint findIndex (sel : string) (imgs : list ImageData) : Z :=
  match imgs with
  | [] => -1
  | img :: rest =>
      if String.eqb (url img) sel then 0
      else let i := findIndex sel rest in
           if (i <? 0)%Z then -1 else (i + 1)%Z
  end.

Definition currentImageIndex (st : State) : Z :=
  match selectedImage st with
  | Some sel => findIndex (url sel) (filteredImages st)
  | None => -1
  end.

(** [filteredImages[i]]: [None] is [undefined]. *)
Definition at_index (imgs : list ImageData) (i : Z) : option ImageData :=
  if (i <? 0)%Z then None else nth_error imgs (Z.to_nat i).

Definition goToPrevImage (st : State) : State :=
  if (0 <? currentImageIndex st)%Z then
    setImageLoading
      (setSelectedImage st
         (at_index (filteredImages st) (currentImageIndex st - 1)))
      true
  else st.

Definition goToNextImage (st : State) : State :=
  if (currentImageIndex st <? Z.of_nat (List.length (filteredImages st)) - 1)%Z
  then
    setImageLoading
      (setSelectedImage st
         (at_index (filteredImages st) (currentImageIndex st + 1)))
      true
  else st.

Definition openModal (st : State) (image : ImageData) : State :=
  setSelectedImage st (Some image).

Definition closeModal (st : State) : State :=
  setSelectedImage st None.

(** [handleKeyDown], on [event.key]. *)
Definition handleKeyDown (st : State) (key : string) : State :=
  match selectedImage st with
  | None => st
  | Some _ =>
      if String.eqb key "Escape" then closeModal st
      else if String.eqb key "ArrowLeft" then goToPrevImage st
      else if String.eqb key "ArrowRight" then goToNextImage st
      else st
  end.

Definition toggleSelection (st : State) (imageUrl : string) : State :=
  setSelectedImages st
    (if has (selectedImages st) imageUrl
     then delete (selectedImages st) imageUrl
     else add (selectedImages st) imageUrl).

Definition toggleSelectionMode (st : State) : State :=
  let st' := setIsSelectionMode st (negb (isSelectionMode st)) in
  if negb (isSelectionMode st) then setSelectedImages st' [] else st'.

Definition selectAll (st : State) : State :=
  setSelectedImages st (fromArray (map url (filteredImages st))).

Definition clearSelection (st : State) : State :=
  setSelectedImages st [].

(** The click on a tile of the grid. *)
Definition clickImage (st : State) (image : ImageData) : State :=
  if isSelectionMode st then toggleSelection st (url image)
  else openModal st image.

(** [handleBatchDownload]: the calls of [handleDownload] it makes, each
    with the delay in milliseconds it waits for first. *)
Definition handleBatchDownload (st : State) : list (Z * ImageData) :=
  let selectedImageData :=
    filter (fun img => has (selectedImages st) (url img))
           (filteredImages st) in
  match selectedImageData with
  | [] => []
  | [image] => [(0%Z, image)]
  | _ =>
      map (fun entry =>
             let index := Z.of_nat (fst entry) in
             ((if (0 <? index)%Z then 500 * index else 0)%Z, snd entry))
          (combine (seq 0 (List.length selectedImageData)) selectedImageData)
  end.

End host.

End Gallery.

(** The page loads its images from the endpoint: one [GET] answered by
    [handler], given to [fetchImages]. *)
Definition loadImages (p : platform) (env : Env) (c : Cache)
    (st : Gallery.State) : Gallery.State * Cache :=
  let (response, c') := handler p env c "GET" in
  (Gallery.fetchImages st (Returns response), c').

(** The properties of [Object.prototype] in a browser. *)
Definition objectPrototypeKeys (k : string) : bool :=
  existsb (String.eqb k)
    ["constructor"; "hasOwnProperty"; "isPrototypeOf";
     "propertyIsEnumerable"; "toLocaleString"; "toString"; "valueOf";
     "__proto__"; "__defineGetter__"; "__defineSetter__";
     "__lookupGetter__"; "__lookupSetter__"].

(** The page showing the inventory of [deepRoot], nothing selected. *)
Definition shownExample : Gallery.State :=
  Gallery.setImages Gallery.initialState
    (getImageFiles Posix "/app/public/images" "" deepRoot).

(** The working directory of the process has been removed:
    [process.cwd()] throws; the images directory itself is there. *)
Definition noWorkdir (t : Z) : Env :=
  {| now := t;
     cwd := Throws "Error: ENOENT: no such file or directory, uv_cwd";
     lookup := fun _ => Some exampleRoot |}.

(** * Properties *)

(** ** The example of the specification *)

Example example_scan_posix :
  getImageFiles Posix "/app/public/images" "" exampleRoot
  = [ {| name := "a.png"; url := "/images/a.png"; path := "a.png";
         directory := rootLabel; size := 10 |};
      {| name := "c.jpg"; url := "/images/b/c.jpg"; path := "b/c.jpg";
         directory := "b"; size := 20 |} ].
Proof. reflexivity. Qed.

Example example_scan_win32 :
  getImageFiles Win32 "C:\app\public\images" "" exampleRoot
  = [ {| name := "a.png"; url := "/images/a.png"; path := "a.png";
         directory := rootLabel; size := 10 |};
      {| name := "c.jpg"; url := "/images/b/c.jpg"; path := "b\c.jpg";
         directory := "b"; size := 20 |} ].
Proof. reflexivity. Qed.

(** ** The loop of the scanner *)

Lemma getImageFiles_Directory p dirPath relativePath items :
  getImageFiles p dirPath relativePath (Directory items)
  = scanItems p dirPath relativePath items.
Proof.
  simpl.
  induction items as [|[itemName item] rest IH]; [reflexivity|].
  destruct item as [stat|sub| |target|]; simpl; rewrite ?IH; reflexivity.
Qed.

(** ** The loop, entry by entry *)

Section loop_equations.

Variables (p : platform) (dirPath relativePath : string).

Lemma scanItems_directory itemName item rest :
  isDirectory item = true ->
  scanItems p dirPath relativePath ((itemName, item) :: rest)
  = getImageFiles p (Path.join p dirPath itemName)
      (relativeItemPath p relativePath itemName) item
    ++ scanItems p dirPath relativePath rest.
Proof. intros H. simpl. rewrite H. reflexivity. Qed.

Lemma scanItems_file itemName fileSize rest :
  hasImageExtension itemName = true ->
  scanItems p dirPath relativePath
    ((itemName, RegularFile (Some fileSize)) :: rest)
  = describe p relativePath itemName fileSize
    :: scanItems p dirPath relativePath rest.
Proof. intros H. simpl. rewrite H. reflexivity. Qed.

Lemma scanItems_file_skipped itemName stat rest :
  hasImageExtension itemName = false ->
  scanItems p dirPath relativePath ((itemName, RegularFile stat) :: rest)
  = scanItems p dirPath relativePath rest.
Proof. intros H. simpl. rewrite H. reflexivity. Qed.

Lemma scanItems_stat_throws itemName rest :
  hasImageExtension itemName = true ->
  scanItems p dirPath relativePath ((itemName, RegularFile None) :: rest)
  = [].
Proof. intros H. simpl. rewrite H. reflexivity. Qed.

Lemma scanItems_other itemName item rest :
  isDirectory item = false -> isFile item = false ->
  scanItems p dirPath relativePath ((itemName, item) :: rest)
  = scanItems p dirPath relativePath rest.
Proof. intros H1 H2. simpl. rewrite H1, H2. reflexivity. Qed.

(** An entry that adds nothing and throws nothing can be dropped from the
    listing. *)
Lemma scanItems_drop before entry after :
  (forall rest,
      scanItems p dirPath relativePath (entry :: rest)
      = scanItems p dirPath relativePath rest) ->
  scanItems p dirPath relativePath (before ++ entry :: after)
  = scanItems p dirPath relativePath (before ++ after).
Proof.
  intros Hskip.
  induction before as [|[itemName item] before IH]; [apply Hskip|].
  rewrite <- !app_comm_cons.
  destruct item as [[fileSize|]|sub| |target|].
  - destruct (hasImageExtension itemName) eqn:E.
    + rewrite !scanItems_file by assumption. now rewrite IH.
    + rewrite !scanItems_file_skipped by assumption. exact IH.
  - destruct (hasImageExtension itemName) eqn:E.
    + now rewrite !scanItems_stat_throws by assumption.
    + rewrite !scanItems_file_skipped by assumption. exact IH.
  - rewrite !scanItems_directory by reflexivity. now rewrite IH.
  - rewrite !scanItems_directory by reflexivity. now rewrite IH.
  - rewrite !scanItems_other by reflexivity. exact IH.
  - rewrite !scanItems_other by reflexivity. exact IH.
Qed.

End loop_equations.

Lemma scanItems_app p dirPath relativePath before after :
  loopCompletes before = true ->
  scanItems p dirPath relativePath (before ++ after)
  = scanItems p dirPath relativePath before
    ++ scanItems p dirPath relativePath after.
Proof.
  induction before as [|[itemName item] before IH]; intros H; [reflexivity|].
  simpl in H. apply andb_true_iff in H as [Hitem H].
  specialize (IH H). rewrite <- app_comm_cons.
  destruct item as [[fileSize|]|sub| |target|].
  - destruct (hasImageExtension itemName) eqn:E.
    + rewrite !scanItems_file by assumption. now rewrite IH.
    + now rewrite !scanItems_file_skipped by assumption.
  - apply negb_true_iff in Hitem.
    now rewrite !scanItems_file_skipped by assumption.
  - rewrite !scanItems_directory by reflexivity. now rewrite IH, app_assoc.
  - rewrite !scanItems_directory by reflexivity. now rewrite IH, app_assoc.
  - now rewrite !scanItems_other by reflexivity.
  - now rewrite !scanItems_other by reflexivity.
Qed.

(** Every descriptor of a scan carries a recognized name. *)
Lemma scanned_names_recognized p t :
  forall dirPath relativePath d,
    In d (getImageFiles p dirPath relativePath t) ->
    hasImageExtension (name d) = true.
Proof.
  induction t as [stat|items IH| |target|] using node_tree_ind;
    intros dirPath relativePath d Hd; try contradiction.
  rewrite getImageFiles_Directory in Hd.
  induction IH as [|[itemName item] rest Hitem _ IHrest]; [contradiction|].
  simpl in Hitem.
  destruct item as [[fileSize|]|sub| |target|].
  - destruct (hasImageExtension itemName) eqn:E.
    + rewrite scanItems_file in Hd by assumption.
      destruct Hd as [<-|Hd]; [exact E|auto].
    + rewrite scanItems_file_skipped in Hd by assumption. auto.
  - destruct (hasImageExtension itemName) eqn:E.
    + rewrite scanItems_stat_throws in Hd by assumption. contradiction.
    + rewrite scanItems_file_skipped in Hd by assumption. auto.
  - rewrite scanItems_directory in Hd by reflexivity.
    apply in_app_or in Hd as [Hd|Hd]; eauto.
  - rewrite scanItems_directory in Hd by reflexivity.
    apply in_app_or in Hd as [Hd|Hd]; eauto.
  - rewrite scanItems_other in Hd by reflexivity. auto.
  - rewrite scanItems_other in Hd by reflexivity. auto.
Qed.

(** ** Recognized extensions *)

Lemma includes_In arr s : Str.includes arr s = true <-> In s arr.
Proof.
  induction arr as [|x arr IH]; simpl.
  - split; [discriminate|contradiction].
  - rewrite orb_true_iff, IH, String.eqb_eq. reflexivity.
Qed.

Lemma imageExtensions_lower e :
  In e imageExtensions -> Str.toLowerCase e = e.
Proof.
  unfold imageExtensions. simpl.
  intros H; repeat (destruct H as [<-|H]; [reflexivity|]); contradiction.
Qed.

Example recognized_upper_case : hasImageExtension "photo.JPG" = true.
Proof. reflexivity. Qed.

Example recognized_mixed_case : hasImageExtension "scan.v2.WebP" = true.
Proof. reflexivity. Qed.

Example text_file_skipped : hasImageExtension "notes.txt" = false.
Proof. reflexivity. Qed.

Example no_extension_skipped : hasImageExtension "jpg" = false.
Proof. reflexivity. Qed.

(** A leading dot starts no extension: [path.extname(".png")] is empty. *)
Example dot_file_skipped : hasImageExtension ".png" = false.
Proof. reflexivity. Qed.

(** C3, as the code has it.  A regular file met by the loop, on which
    [statSync] succeeds, gets a descriptor exactly when its extension,
    lower-cased, is on the allow-list: the test [hasImageExtension] is the
    case-insensitive comparison of [path.extname] with the list; a file
    that passes it and is reached by the loop ([before] runs to its end)
    is in the result with its descriptor, which carries its name and its
    size; a file that fails it can be removed from the listing without
    changing the result, whatever [statSync] would answer on it; and no
    descriptor of any scan carries a name that fails it. *)
Theorem extension_filtering p dirPath relativePath :
  (forall itemName,
      hasImageExtension itemName = true
      <-> exists e, In e imageExtensions
                    /\ Str.toLowerCase (Path.extname itemName)
                       = Str.toLowerCase e)
  /\ (forall before itemName fileSize after,
         loopCompletes before = true ->
         hasImageExtension itemName = true ->
         exists d,
           In d (getImageFiles p dirPath relativePath
                   (Directory
                      (before
                       ++ (itemName, RegularFile (Some fileSize)) :: after)))
           /\ d = describe p relativePath itemName fileSize
           /\ name d = itemName
           /\ size d = fileSize
           /\ path d = relativeItemPath p relativePath itemName)
  /\ (forall before itemName stat after,
         hasImageExtension itemName = false ->
         getImageFiles p dirPath relativePath
           (Directory (before ++ (itemName, RegularFile stat) :: after))
         = getImageFiles p dirPath relativePath (Directory (before ++ after)))
  /\ (forall t d,
         In d (getImageFiles p dirPath relativePath t) ->
         hasImageExtension (name d) = true).
Proof.
  repeat split.
  - intros H. apply includes_In in H.
    exists (Str.toLowerCase (Path.extname itemName)). split; [exact H|].
    symmetry. now apply imageExtensions_lower.
  - intros (e & He & Heq). apply includes_In.
    rewrite Heq, imageExtensions_lower; assumption.
  - intros before itemName fileSize after Hbefore Himage.
    exists (describe p relativePath itemName fileSize).
    split; [|repeat split].
    rewrite getImageFiles_Directory, scanItems_app by assumption.
    apply in_or_app. right.
    rewrite scanItems_file by assumption. now left.
  - intros before itemName stat after Hskip.
    rewrite !getImageFiles_Directory. apply scanItems_drop.
    intros rest. now apply scanItems_file_skipped.
  - intros t d. apply scanned_names_recognized.
Qed.

Lemma extension_filtering_witness :
  (exists d,
      In d (getImageFiles Posix "/srv" ""
              (Directory ([("a.txt", RegularFile None)]
                          ++ ("B.JPEG", RegularFile (Some 7%N)) :: [])))
      /\ name d = "B.JPEG"%string /\ size d = 7%N)
  /\ getImageFiles Posix "/srv" ""
       (Directory ([("c.png", RegularFile (Some 1%N))]
                   ++ ("a.txt", RegularFile None) :: []))
     = getImageFiles Posix "/srv" ""
         (Directory ([("c.png", RegularFile (Some 1%N))] ++ []))
  /\ hasImageExtension "c.png" = true.
Proof.
  destruct (extension_filtering Posix "/srv" "") as (_ & Hin & Hout & Hall).
  split; [|split].
  - destruct (Hin [("a.txt", RegularFile None)] "B.JPEG"%string 7%N [])
      as (d & Hd & _ & Hname & Hsize & _); [reflexivity|reflexivity|].
    exists d. auto.
  - apply Hout; reflexivity.
  - apply (Hall (Directory [("c.png", RegularFile (Some 1%N))])
                (describe Posix "" "c.png" 1%N)).
    simpl. left. reflexivity.
Defined.

(** C3 as stated fails: a regular file with an allow-listed extension on
    which [statSync] throws is met by the loop and gets no descriptor. *)
Lemma unreadable_image_not_listed :
  hasImageExtension "2.png" = true
  /\ getImageFiles Posix "/srv" "" (Directory [("2.png", RegularFile None)])
     = []
  /\ ~ (forall p dirPath relativePath itemName stat rest,
           hasImageExtension itemName = true <->
           exists d,
             In d (getImageFiles p dirPath relativePath
                     (Directory ((itemName, RegularFile stat) :: rest)))
             /\ name d = itemName
             /\ path d = relativeItemPath p relativePath itemName).
Proof.
  split; [reflexivity|]. split; [reflexivity|].
  intros H.
  destruct (proj1 (H Posix "/srv"%string ""%string "2.png"%string None [])
              eq_refl) as (d & Hd & _).
  exact Hd.
Qed.

(** ** Entries that are skipped *)

(** C10. An entry that is neither a regular file nor a directory (a
    symbolic link, whatever it points to, or a socket, FIFO or device) adds
    nothing to the inventory, whatever its name: the scan is the scan of
    the listing without it. *)
Theorem non_regular_entries_omitted p dirPath relativePath before itemName after :
  (forall target,
      getImageFiles p dirPath relativePath
        (Directory (before ++ (itemName, SymbolicLink target) :: after))
      = getImageFiles p dirPath relativePath (Directory (before ++ after)))
  /\ getImageFiles p dirPath relativePath
       (Directory (before ++ (itemName, Special) :: after))
     = getImageFiles p dirPath relativePath (Directory (before ++ after)).
Proof.
  split; [intros target|];
    rewrite !getImageFiles_Directory; apply scanItems_drop;
    intros rest; now apply scanItems_other.
Qed.

Example link_to_image_folder_ignored :
  getImageFiles Posix "/srv" ""
    (Directory [("shortcut.png", SymbolicLink exampleRoot);
                ("a.png", RegularFile (Some 10%N))])
  = [describe Posix "" "a.png" 10%N].
Proof. reflexivity. Qed.

(** ** Strings and joined paths *)

Lemma append_assoc (a b c : string) :
  ((a ++ b) ++ c = a ++ (b ++ c))%string.
Proof. induction a as [|x a IH]; simpl; [reflexivity|now rewrite IH]. Qed.

Lemma append_nil_r (a : string) : (a ++ "" = a)%string.
Proof. induction a as [|x a IH]; simpl; [reflexivity|now rewrite IH]. Qed.

Lemma append_inv_head (a b c : string) :
  (a ++ b = a ++ c)%string -> b = c.
Proof.
  induction a as [|x a IH]; simpl; intros H; [exact H|].
  injection H as H. auto.
Qed.

Lemma is_empty_true s : Str.is_empty s = true <-> s = "".
Proof. destruct s; simpl; split; congruence. Qed.

Lemma is_empty_append a b :
  Str.is_empty (a ++ b)%string = Str.is_empty a && Str.is_empty b.
Proof. destruct a; reflexivity. Qed.

Lemma is_empty_join p a b : Str.is_empty (Path.join p a b) = false.
Proof.
  unfold Path.join. rewrite is_empty_append. apply andb_false_r.
Qed.

Lemma relativeItemPath_under p relativePath itemName :
  relativeItemPath p relativePath itemName
  = (under p relativePath ++ itemName)%string.
Proof.
  unfold relativeItemPath, under, Path.join.
  destruct (Str.is_empty relativePath); [reflexivity|].
  now rewrite append_assoc.
Qed.

Lemma is_empty_relativeItemPath p relativePath itemName :
  Str.is_empty itemName = false ->
  Str.is_empty (relativeItemPath p relativePath itemName) = false.
Proof.
  intros H. unfold relativeItemPath.
  destruct (Str.is_empty relativePath); [exact H|apply is_empty_join].
Qed.

Lemma joinAll_cons p s rest :
  rest <> [] -> joinAll p (s :: rest) = Path.join p s (joinAll p rest).
Proof. destruct rest; [congruence|reflexivity]. Qed.

Lemma is_empty_joinAll p folders :
  Forall (fun s => Str.is_empty s = false) folders ->
  Str.is_empty (joinAll p folders)
  = match folders with [] => true | _ => false end.
Proof.
  intros H. destruct H as [|s rest Hs Hrest]; [reflexivity|].
  destruct rest; [exact Hs|].
  rewrite joinAll_cons by discriminate. apply is_empty_join.
Qed.

(** Threading [relativePath] through the recursion builds the joined chain
    of names. *)
Lemma joinAll_snoc p folders itemName :
  Forall (fun s => Str.is_empty s = false) folders ->
  joinAll p (folders ++ [itemName])
  = relativeItemPath p (joinAll p folders) itemName.
Proof.
  induction 1 as [|s rest Hs Hrest IH]; [reflexivity|].
  rewrite <- app_comm_cons.
  rewrite joinAll_cons by (destruct rest; discriminate).
  rewrite IH. unfold relativeItemPath.
  rewrite (is_empty_joinAll p (s :: rest)) by (constructor; assumption).
  rewrite (is_empty_joinAll p rest) by assumption.
  destruct rest as [|s' rest'].
  - reflexivity.
  - rewrite (joinAll_cons p s (s' :: rest')) by discriminate.
    unfold Path.join. rewrite append_assoc. reflexivity.
Qed.

(** ** Completeness of the recursion *)

Lemma filesOf_cons itemName item rest :
  filesOf (Directory ((itemName, item) :: rest))
  = match item with
    | RegularFile (Some fileSize) => [([], itemName, fileSize)]
    | Directory _ => map (below [itemName]) (filesOf item)
    | _ => []
    end ++ filesOf (Directory rest).
Proof. destruct item as [[fileSize|]|sub| |target|]; reflexivity. Qed.

Lemma filter_recognized_below folders files :
  filter recognized (map (below folders) files)
  = map (below folders) (filter recognized files).
Proof.
  induction files as [|f files IH]; [reflexivity|].
  cbn [map filter].
  change (recognized (below folders f)) with (recognized f).
  destruct (recognized f); now rewrite IH.
Qed.

Lemma below_below folders itemName f :
  below folders (below [itemName] f) = below (folders ++ [itemName]) f.
Proof. unfold below. simpl. now rewrite <- app_assoc. Qed.

Lemma describe_descriptorAt p folders itemName fileSize :
  Forall (fun s => Str.is_empty s = false) folders ->
  describe p (joinAll p folders) itemName fileSize
  = descriptorAt p (below folders ([], itemName, fileSize)).
Proof.
  intros H. unfold describe, descriptorAt, below. simpl.
  rewrite app_nil_r, joinAll_snoc, is_empty_joinAll by assumption.
  destruct folders; reflexivity.
Qed.

Lemma scan_enumerates p t :
  forall dirPath folders,
    readable t = true ->
    namesNonEmpty t = true ->
    Forall (fun s => Str.is_empty s = false) folders ->
    getImageFiles p dirPath (joinAll p folders) t
    = map (fun f => descriptorAt p (below folders f))
          (filter recognized (filesOf t)).
Proof.
  induction t as [stat|items IH| |target|] using node_tree_ind;
    intros dirPath folders Hread Hnames Hfolders; try reflexivity.
  rewrite getImageFiles_Directory.
  induction IH as [|[itemName item] rest Hitem _ IHrest]; [reflexivity|].
  simpl in Hitem.
  change (readable (Directory ((itemName, item) :: rest)))
    with (readable item && readable (Directory rest)) in Hread.
  change (namesNonEmpty (Directory ((itemName, item) :: rest)))
    with ((negb (Str.is_empty itemName) && namesNonEmpty item)
          && namesNonEmpty (Directory rest)) in Hnames.
  apply andb_true_iff in Hread as [Hread_item Hread_rest].
  apply andb_true_iff in Hnames as [Hnames_item Hnames_rest].
  apply andb_true_iff in Hnames_item as [Hname Hnames_item].
  apply negb_true_iff in Hname.
  specialize (IHrest Hread_rest Hnames_rest).
  rewrite filesOf_cons, filter_app, map_app, <- IHrest.
  destruct item as [[fileSize|]|sub| |target|]; try discriminate.
  - cbn [filter].
    change (recognized ([], itemName, fileSize))
      with (hasImageExtension itemName).
    destruct (hasImageExtension itemName) eqn:E.
    + rewrite scanItems_file by assumption.
      cbn [map app]. now rewrite describe_descriptorAt.
    + now rewrite scanItems_file_skipped.
  - rewrite scanItems_directory by reflexivity. f_equal.
    rewrite <- joinAll_snoc by assumption.
    rewrite (Hitem _ (folders ++ [itemName])); try assumption.
    + rewrite filter_recognized_below, map_map.
      apply map_ext. intros f. now rewrite below_below.
    + apply Forall_app. split; [assumption|]. now constructor.
  - now rewrite scanItems_other.
  - now rewrite scanItems_other.
Qed.

(** C4. In a tree whose directories can all be listed and whose files can
    all be [stat]ed, at any depth, the scan is the list of the recognized
    regular files of the tree, each once, each with its descriptor: [name]
    the file's own name, [path] the names from the root down to the file
    joined by the host separator, [directory] the joined names of its
    folders (the root label when there is none) and [size] its size.
    Entry names are not empty, as on any file system. *)
Theorem recursion_completeness p dirPath root :
  readable root = true ->
  namesNonEmpty root = true ->
  getImageFiles p dirPath "" root
  = map (descriptorAt p) (filter recognized (filesOf root)).
Proof.
  intros Hread Hnames.
  transitivity (map (fun f => descriptorAt p (below [] f))
                    (filter recognized (filesOf root))).
  - exact (scan_enumerates p root dirPath [] Hread Hnames (Forall_nil _)).
  - apply map_ext. intros [[folders fileName] fileSize]. reflexivity.
Qed.

Lemma recursion_completeness_witness :
  getImageFiles Posix "/app/public/images" "" deepRoot
  = [ {| name := "top.png"; url := "/images/top.png"; path := "top.png";
         directory := rootLabel; size := 1 |};
      {| name := "mid.GIF"; url := "/images/x/mid.GIF"; path := "x/mid.GIF";
         directory := "x"; size := 2 |};
      {| name := "deep.svg"; url := "/images/x/y/z/deep.svg";
         path := "x/y/z/deep.svg"; directory := "x/y/z"; size := 3 |} ].
Proof.
  rewrite (recursion_completeness Posix "/app/public/images" deepRoot);
    reflexivity.
Defined.

(** ** Uniqueness of relative paths *)

Lemma scan_paths_below p t :
  forall dirPath relativePath d,
    Str.is_empty relativePath = false ->
    In d (getImageFiles p dirPath relativePath t) ->
    exists r, path d = (relativePath ++ String (Path.sep p) r)%string.
Proof.
  induction t as [stat|items IH| |target|] using node_tree_ind;
    intros dirPath relativePath d Hrel Hd; try contradiction.
  rewrite getImageFiles_Directory in Hd.
  induction IH as [|[itemName item] rest Hitem _ IHrest]; [contradiction|].
  simpl in Hitem.
  destruct item as [[fileSize|]|sub| |target|].
  - destruct (hasImageExtension itemName) eqn:E.
    + rewrite scanItems_file in Hd by assumption.
      destruct Hd as [<-|Hd]; [|auto].
      exists itemName. simpl. unfold relativeItemPath. now rewrite Hrel.
    + rewrite scanItems_file_skipped in Hd by assumption. auto.
  - destruct (hasImageExtension itemName) eqn:E.
    + rewrite scanItems_stat_throws in Hd by assumption. contradiction.
    + rewrite scanItems_file_skipped in Hd by assumption. auto.
  - rewrite scanItems_directory in Hd by reflexivity.
    apply in_app_or in Hd as [Hd|Hd]; [|auto].
    unfold relativeItemPath in Hd. rewrite Hrel in Hd.
    apply Hitem in Hd as [r Hr]; [|apply is_empty_join].
    exists (itemName ++ String (Path.sep p) r)%string.
    rewrite Hr. unfold Path.join. now rewrite append_assoc.
  - rewrite scanItems_directory in Hd by reflexivity.
    apply in_app_or in Hd as [Hd|Hd]; [contradiction|auto].
  - rewrite scanItems_other in Hd by reflexivity. auto.
  - rewrite scanItems_other in Hd by reflexivity. auto.
Qed.

Lemma wellNamed_cons p itemName item rest :
  wellNamed p (Directory ((itemName, item) :: rest)) = true
  <-> validName p itemName = true
      /\ wellNamed p item = true
      /\ wellNamed p (Directory rest) = true.
Proof.
  change (wellNamed p (Directory ((itemName, item) :: rest)))
    with ((validName p itemName && wellNamed p item)
          && wellNamed p (Directory rest)).
  rewrite !andb_true_iff. tauto.
Qed.

Lemma distinctNames_cons itemName item rest :
  distinctNames (Directory ((itemName, item) :: rest))
  <-> ~ In itemName (map fst rest)
      /\ distinctNames item
      /\ distinctNames (Directory rest).
Proof.
  simpl. rewrite NoDup_cons_iff. tauto.
Qed.

(** Each path found by the loop is [under relativePath], then the name of
    one of the entries, then nothing or a separator and more. *)
Lemma scanItems_paths p dirPath relativePath items d :
  wellNamed p (Directory items) = true ->
  In d (scanItems p dirPath relativePath items) ->
  exists itemName rest,
    In itemName (map fst items)
    /\ validName p itemName = true
    /\ path d = (under p relativePath ++ itemName ++ rest)%string
    /\ continues p rest.
Proof.
  induction items as [|[itemName item] items IH]; intros Hnames Hd;
    [contradiction|].
  apply wellNamed_cons in Hnames as (Hname & Hitem & Hnames).
  assert (Hlater :
            In d (scanItems p dirPath relativePath items) ->
            exists n rest,
              In n (map fst ((itemName, item) :: items))
              /\ validName p n = true
              /\ path d = (under p relativePath ++ n ++ rest)%string
              /\ continues p rest).
  { intros H. destruct (IH Hnames H) as (n & rest & Hin & Hrest).
    exists n, rest. split; [now right|exact Hrest]. }
  assert (Hsub :
            In d (getImageFiles p (Path.join p dirPath itemName)
                    (relativeItemPath p relativePath itemName) item) ->
            exists n rest,
              In n (map fst ((itemName, item) :: items))
              /\ validName p n = true
              /\ path d = (under p relativePath ++ n ++ rest)%string
              /\ continues p rest).
  { intros H. apply scan_paths_below in H as [r Hr].
    - exists itemName, (String (Path.sep p) r).
      repeat split; [now left|assumption|].
      rewrite Hr, relativeItemPath_under. apply append_assoc.
    - apply is_empty_relativeItemPath.
      unfold validName in Hname. apply andb_true_iff in Hname as [Hname _].
      now apply negb_true_iff in Hname. }
  destruct item as [[fileSize|]|sub| |target|].
  - destruct (hasImageExtension itemName) eqn:E.
    + rewrite scanItems_file in Hd by assumption.
      destruct Hd as [<-|Hd]; [|auto].
      exists itemName, ""%string.
      repeat split; [now left|assumption|].
      simpl. now rewrite relativeItemPath_under, append_nil_r.
    + rewrite scanItems_file_skipped in Hd by assumption. auto.
  - destruct (hasImageExtension itemName) eqn:E.
    + rewrite scanItems_stat_throws in Hd by assumption. contradiction.
    + rewrite scanItems_file_skipped in Hd by assumption. auto.
  - rewrite scanItems_directory in Hd by reflexivity.
    apply in_app_or in Hd as [Hd|Hd]; auto.
  - rewrite scanItems_directory in Hd by reflexivity.
    apply in_app_or in Hd as [Hd|Hd]; auto.
  - rewrite scanItems_other in Hd by reflexivity. auto.
  - rewrite scanItems_other in Hd by reflexivity. auto.
Qed.

(** Two names without separator that start the same path are the same
    name. *)
Lemma first_segment_inj p (n1 n2 r1 r2 : string) :
  Str.mem (Path.sep p) n1 = false ->
  Str.mem (Path.sep p) n2 = false ->
  continues p r1 -> continues p r2 ->
  (n1 ++ r1 = n2 ++ r2)%string ->
  n1 = n2.
Proof.
  revert n2.
  induction n1 as [|c1 n1 IH]; intros [|c2 n2] H1 H2 Hr1 Hr2 Heq;
    simpl in *; try reflexivity.
  - subst r1. simpl in Hr1. subst c2.
    rewrite Ascii.eqb_refl in H2. discriminate.
  - subst r2. simpl in Hr2. subst c1.
    rewrite Ascii.eqb_refl in H1. discriminate.
  - injection Heq as -> Heq.
    apply orb_false_iff in H1 as [_ H1].
    apply orb_false_iff in H2 as [_ H2].
    f_equal. now apply (IH n2).
Qed.

(** A path found under the entry [itemName] is not found under the later
    entries of the listing, whose names differ from [itemName]. *)
Lemma later_paths_differ p dirPath relativePath itemName rest1 items d :
  validName p itemName = true ->
  continues p rest1 ->
  wellNamed p (Directory items) = true ->
  ~ In itemName (map fst items) ->
  In d (scanItems p dirPath relativePath items) ->
  path d <> (under p relativePath ++ itemName ++ rest1)%string.
Proof.
  intros Hname Hrest1 Hnames Hfresh Hd Heq.
  destruct (scanItems_paths p dirPath relativePath items d Hnames Hd)
    as (n & rest2 & Hin & Hn & Hpath & Hrest2).
  rewrite Hpath in Heq. apply append_inv_head in Heq.
  unfold validName in Hname, Hn.
  apply andb_true_iff in Hname as [_ Hname].
  apply andb_true_iff in Hn as [_ Hn].
  apply negb_true_iff in Hname, Hn.
  apply (first_segment_inj p) in Heq; try assumption.
  subst n. contradiction.
Qed.

Lemma scan_paths_unique p t :
  forall dirPath relativePath,
    wellNamed p t = true ->
    distinctNames t ->
    NoDup (map path (getImageFiles p dirPath relativePath t)).
Proof.
  induction t as [stat|items IH| |target|] using node_tree_ind;
    intros dirPath relativePath Hnames Hdistinct; try constructor.
  rewrite getImageFiles_Directory.
  induction IH as [|[itemName item] rest Hitem _ IHrest]; [constructor|].
  simpl in Hitem.
  apply wellNamed_cons in Hnames as (Hname & Hnames_item & Hnames_rest).
  apply distinctNames_cons in Hdistinct as (Hfresh & Hd_item & Hd_rest).
  specialize (IHrest Hnames_rest Hd_rest).
  destruct item as [[fileSize|]|sub| |target|].
  - destruct (hasImageExtension itemName) eqn:E.
    + rewrite scanItems_file by assumption.
      cbn [map]. constructor; [|exact IHrest].
      intros Hin. apply in_map_iff in Hin as (d & Hpath & Hd).
      revert Hpath.
      cbn [path describe]. rewrite relativeItemPath_under.
      rewrite <- (append_nil_r itemName) at 1.
      exact (later_paths_differ p dirPath relativePath itemName "" rest d
               Hname I Hnames_rest Hfresh Hd).
    + now rewrite scanItems_file_skipped.
  - destruct (hasImageExtension itemName) eqn:E.
    + rewrite scanItems_stat_throws by assumption. constructor.
    + now rewrite scanItems_file_skipped.
  - rewrite scanItems_directory by reflexivity.
    rewrite map_app. apply NoDup_app; [now apply Hitem|exact IHrest|].
    intros q Hq1 Hq2.
    apply in_map_iff in Hq1 as (d1 & <- & Hd1).
    apply in_map_iff in Hq2 as (d2 & Hpath & Hd2).
    apply scan_paths_below in Hd1 as [r Hr].
    + revert Hpath. rewrite Hr, relativeItemPath_under, append_assoc.
      exact (later_paths_differ p dirPath relativePath itemName
               (String (Path.sep p) r) rest d2
               Hname eq_refl Hnames_rest Hfresh Hd2).
    + apply is_empty_relativeItemPath.
      unfold validName in Hname. apply andb_true_iff in Hname as [Hname _].
      now apply negb_true_iff in Hname.
  - now rewrite scanItems_directory by reflexivity.
  - now rewrite scanItems_other.
  - now rewrite scanItems_other.
Qed.

(** C9. In one scan result no two descriptors have the same [path], when
    no directory listing holds a name twice (entry names being, as on any
    file system of the host, not empty and free of the host separator).
    This holds whether or not parts of the tree fail to be read. *)
Theorem relativePath_unique p dirPath root :
  wellNamed p root = true ->
  distinctNames root ->
  NoDup (map path (getImageFiles p dirPath "" root)).
Proof. apply scan_paths_unique. Qed.

Lemma relativePath_unique_witness :
  NoDup (map path (getImageFiles Posix "/app/public/images" "" deepRoot)).
Proof.
  apply (relativePath_unique Posix "/app/public/images" deepRoot).
  - reflexivity.
  - simpl. repeat split; repeat constructor; simpl; intuition discriminate.
Defined.

(** Without the condition on names the paths can collide: a file whose name
    holds the separator and a file inside a folder. *)
Example colliding_names :
  map path
    (getImageFiles Posix "/srv/images" ""
       (Directory [("a/b.png", RegularFile (Some 1%N));
                   ("a", Directory [("b.png", RegularFile (Some 2%N))])]))
  = ["a/b.png"; "a/b.png"].
Proof. reflexivity. Qed.

(** ** Separators in [path] and [url] *)

Lemma mem_append c (a b : string) :
  Str.mem c (a ++ b)%string = Str.mem c a || Str.mem c b.
Proof.
  induction a as [|x a IH]; simpl; [reflexivity|].
  now rewrite IH, orb_assoc.
Qed.

Lemma replace_backslashes_clean s :
  Str.mem Str.backslash (Str.replace_backslashes s) = false.
Proof.
  induction s as [|c s IH]; [reflexivity|].
  cbn [Str.mem Str.replace_backslashes].
  rewrite IH, orb_false_r.
  destruct (Ascii.eqb c Str.backslash) eqn:E; [reflexivity|].
  now rewrite Ascii.eqb_sym.
Qed.

Lemma replace_backslashes_id s :
  Str.mem Str.backslash s = false -> Str.replace_backslashes s = s.
Proof.
  induction s as [|c s IH]; [reflexivity|].
  cbn [Str.mem Str.replace_backslashes].
  intros H. apply orb_false_iff in H as [Hc Hs].
  rewrite Ascii.eqb_sym, Hc, IH; [reflexivity|assumption].
Qed.

Lemma scanned_url p t :
  forall dirPath relativePath d,
    In d (getImageFiles p dirPath relativePath t) ->
    url d = ("/images/" ++ Str.replace_backslashes (path d))%string.
Proof.
  induction t as [stat|items IH| |target|] using node_tree_ind;
    intros dirPath relativePath d Hd; try contradiction.
  rewrite getImageFiles_Directory in Hd.
  induction IH as [|[itemName item] rest Hitem _ IHrest]; [contradiction|].
  simpl in Hitem.
  destruct item as [[fileSize|]|sub| |target|].
  - destruct (hasImageExtension itemName) eqn:E.
    + rewrite scanItems_file in Hd by assumption.
      destruct Hd as [<-|Hd]; [reflexivity|auto].
    + rewrite scanItems_file_skipped in Hd by assumption. auto.
  - destruct (hasImageExtension itemName) eqn:E.
    + rewrite scanItems_stat_throws in Hd by assumption. contradiction.
    + rewrite scanItems_file_skipped in Hd by assumption. auto.
  - rewrite scanItems_directory in Hd by reflexivity.
    apply in_app_or in Hd as [Hd|Hd]; eauto.
  - rewrite scanItems_directory in Hd by reflexivity.
    apply in_app_or in Hd as [Hd|Hd]; eauto.
  - rewrite scanItems_other in Hd by reflexivity. auto.
  - rewrite scanItems_other in Hd by reflexivity. auto.
Qed.

Lemma noBackslash_cons itemName item rest :
  noBackslash (Directory ((itemName, item) :: rest)) = true
  <-> Str.mem Str.backslash itemName = false
      /\ noBackslash item = true
      /\ noBackslash (Directory rest) = true.
Proof.
  change (noBackslash (Directory ((itemName, item) :: rest)))
    with ((negb (Str.mem Str.backslash itemName) && noBackslash item)
          && noBackslash (Directory rest)).
  rewrite !andb_true_iff, negb_true_iff. tauto.
Qed.

Lemma relativeItemPath_posix_clean relativePath itemName :
  Str.mem Str.backslash relativePath = false ->
  Str.mem Str.backslash itemName = false ->
  Str.mem Str.backslash (relativeItemPath Posix relativePath itemName)
  = false.
Proof.
  intros Hrel Hname. unfold relativeItemPath, Path.join.
  destruct (Str.is_empty relativePath); [exact Hname|].
  rewrite mem_append, Hrel. simpl. exact Hname.
Qed.

Lemma posix_paths_clean t :
  forall dirPath relativePath d,
    noBackslash t = true ->
    Str.mem Str.backslash relativePath = false ->
    In d (getImageFiles Posix dirPath relativePath t) ->
    Str.mem Str.backslash (path d) = false.
Proof.
  induction t as [stat|items IH| |target|] using node_tree_ind;
    intros dirPath relativePath d Hnames Hrel Hd; try contradiction.
  rewrite getImageFiles_Directory in Hd.
  induction IH as [|[itemName item] rest Hitem _ IHrest]; [contradiction|].
  simpl in Hitem.
  apply noBackslash_cons in Hnames as (Hname & Hnames_item & Hnames_rest).
  specialize (IHrest Hnames_rest).
  destruct item as [[fileSize|]|sub| |target|].
  - destruct (hasImageExtension itemName) eqn:E.
    + rewrite scanItems_file in Hd by assumption.
      destruct Hd as [<-|Hd]; [|auto].
      now apply relativeItemPath_posix_clean.
    + rewrite scanItems_file_skipped in Hd by assumption. auto.
  - destruct (hasImageExtension itemName) eqn:E.
    + rewrite scanItems_stat_throws in Hd by assumption. contradiction.
    + rewrite scanItems_file_skipped in Hd by assumption. auto.
  - rewrite scanItems_directory in Hd by reflexivity.
    apply in_app_or in Hd as [Hd|Hd]; [|auto].
    apply Hitem in Hd; auto using relativeItemPath_posix_clean.
  - rewrite scanItems_directory in Hd by reflexivity.
    apply in_app_or in Hd as [Hd|Hd]; [contradiction|auto].
  - rewrite scanItems_other in Hd by reflexivity. auto.
  - rewrite scanItems_other in Hd by reflexivity. auto.
Qed.

(** C2, as the code has it.  The [url] of every descriptor is [/images/]
    followed by its [path] with each backslash replaced by a forward slash,
    so it holds no backslash on any host, and it is [/images/<path>] when
    [path] holds none.  The [path] field is the names joined by the
    separator of the host and is not normalized: on a host whose separator
    is the forward slash, with entry names free of backslashes, it holds no
    backslash. *)
Theorem url_forward_slashes p dirPath relativePath t d :
  In d (getImageFiles p dirPath relativePath t) ->
  url d = ("/images/" ++ Str.replace_backslashes (path d))%string
  /\ Str.mem Str.backslash (url d) = false
  /\ (Str.mem Str.backslash (path d) = false ->
      url d = ("/images/" ++ path d)%string)
  /\ (p = Posix ->
      noBackslash t = true ->
      Str.mem Str.backslash relativePath = false ->
      Str.mem Str.backslash (path d) = false).
Proof.
  intros Hd. pose proof (scanned_url p t dirPath relativePath d Hd) as Hurl.
  repeat split.
  - exact Hurl.
  - rewrite Hurl, mem_append, replace_backslashes_clean. reflexivity.
  - intros Hclean. now rewrite Hurl, replace_backslashes_id.
  - intros -> Hnames Hrel. eapply posix_paths_clean; eauto.
Qed.

Lemma url_forward_slashes_witness :
  url (describe Win32 "b" "c.jpg" 20%N) = "/images/b/c.jpg"
  /\ Str.mem Str.backslash (url (describe Win32 "b" "c.jpg" 20%N)) = false.
Proof.
  destruct (url_forward_slashes Win32 "C:\app\public\images" "" exampleRoot
              (describe Win32 "b" "c.jpg" 20%N)) as (Hurl & Hclean & _).
  - simpl. right. left. reflexivity.
  - split; [rewrite Hurl; reflexivity|exact Hclean].
Defined.

(** C2 as stated fails on a host whose separator is the backslash: the
    [path] of a nested file keeps the backslash. *)
Lemma path_not_normalized :
  ~ (forall p dirPath t d,
        In d (getImageFiles p dirPath "" t) ->
        Str.mem Str.backslash (path d) = false
        /\ url d = ("/images/" ++ path d)%string).
Proof.
  intros H.
  destruct (H Win32 "C:\app\public\images" exampleRoot
              (describe Win32 "b" "c.jpg" 20%N)) as [Hpath _].
  - simpl. right. left. reflexivity.
  - discriminate Hpath.
Qed.

(** ** The handler and its cache *)

Lemma freshCache_hit c t images :
  cachedImages c = Some images ->
  (t - cacheTimestamp c < CACHE_DURATION)%Z ->
  freshCache c t = Some images.
Proof.
  intros Hc Ht. unfold freshCache. rewrite Hc.
  apply Z.ltb_lt in Ht. now rewrite Ht.
Qed.

Lemma freshCache_miss c t :
  cachedImages c = None \/ (CACHE_DURATION <= t - cacheTimestamp c)%Z ->
  freshCache c t = None.
Proof.
  intros H. unfold freshCache.
  destruct (cachedImages c) as [images|]; [|reflexivity].
  destruct H as [H|H]; [discriminate|].
  apply Z.ltb_ge in H. now rewrite H.
Qed.


Lemma handler_hit p env c images :
  freshCache c (now env) = Some images ->
  handler p env c "GET" = (ok images, c).
Proof. intros H. unfold handler. simpl. now rewrite H. Qed.

Lemma handler_scan p env c workdir root :
  freshCache c (now env) = None ->
  cwd env = Returns workdir ->
  lookup env (imagesDirectory p workdir) = Some root ->
  handler p env c "GET"
  = (ok (getImageFiles p (imagesDirectory p workdir) "" root),
     {| cachedImages :=
          Some (getImageFiles p (imagesDirectory p workdir) "" root);
        cacheTimestamp := now env |}).
Proof.
  intros Hmiss Hcwd Hroot. unfold handler. simpl.
  now rewrite Hmiss, Hcwd, Hroot.
Qed.

Lemma handler_missing_root p env c workdir :
  freshCache c (now env) = None ->
  cwd env = Returns workdir ->
  lookup env (imagesDirectory p workdir) = None ->
  handler p env c "GET"
  = (ok [], {| cachedImages := Some []; cacheTimestamp := now env |}).
Proof.
  intros Hmiss Hcwd Hroot. unfold handler. simpl.
  now rewrite Hmiss, Hcwd, Hroot.
Qed.

Lemma handler_throws p env c error :
  freshCache c (now env) = None ->
  cwd env = Throws error ->
  handler p env c "GET" = (serverError error, c).
Proof.
  intros Hmiss Hcwd. unfold handler. simpl. now rewrite Hmiss, Hcwd.
Qed.

Lemma handler_other_method p env c method :
  method <> "GET"%string ->
  handler p env c method = (methodNotAllowed, c).
Proof.
  intros H. unfold handler.
  apply String.eqb_neq in H. now rewrite H.
Qed.

(** The working directory may be a root, which ends in the separator. *)
Example imagesDirectory_under_roots :
  imagesDirectory Posix "/app" = "/app/public/images"
  /\ imagesDirectory Posix "/" = "/public/images"
  /\ imagesDirectory Win32 "C:\" = "C:\public\images"
  /\ imagesDirectory Win32 "C:\app" = "C:\app\public\images".
Proof. repeat split. Qed.

(** C1, as the code has it.  A [GET] at time [now env] with a cached
    inventory younger than [CACHE_DURATION] (30 seconds) answers with
    status 200 and exactly that inventory and leaves the cache as it is,
    whatever the file system holds (the scanner is not run).  A [GET] with
    no cached inventory, or with one at least [CACHE_DURATION] old, whose
    [try] block throws nothing answers with status 200 and the scan of the
    root (the empty inventory when there is no root) and stores it with
    the time [now env]; when [process.cwd()] throws it answers with status
    500 and stores nothing. *)
Theorem cache_freshness p env c :
  (forall images,
      cachedImages c = Some images ->
      (now env - cacheTimestamp c < CACHE_DURATION)%Z ->
      status (fst (handler p env c "GET")) = 200%Z
      /\ body (fst (handler p env c "GET")) = ImagesBody images
      /\ snd (handler p env c "GET") = c)
  /\ (forall workdir root,
         cachedImages c = None
         \/ (CACHE_DURATION <= now env - cacheTimestamp c)%Z ->
         cwd env = Returns workdir ->
         lookup env (imagesDirectory p workdir) = Some root ->
         status (fst (handler p env c "GET")) = 200%Z
         /\ body (fst (handler p env c "GET"))
            = ImagesBody (getImageFiles p (imagesDirectory p workdir) "" root)
         /\ cachedImages (snd (handler p env c "GET"))
            = Some (getImageFiles p (imagesDirectory p workdir) "" root)
         /\ cacheTimestamp (snd (handler p env c "GET")) = now env)
  /\ (forall workdir,
         cachedImages c = None
         \/ (CACHE_DURATION <= now env - cacheTimestamp c)%Z ->
         cwd env = Returns workdir ->
         lookup env (imagesDirectory p workdir) = None ->
         status (fst (handler p env c "GET")) = 200%Z
         /\ body (fst (handler p env c "GET")) = ImagesBody []
         /\ cachedImages (snd (handler p env c "GET")) = Some []
         /\ cacheTimestamp (snd (handler p env c "GET")) = now env)
  /\ (forall error,
         cachedImages c = None
         \/ (CACHE_DURATION <= now env - cacheTimestamp c)%Z ->
         cwd env = Throws error ->
         status (fst (handler p env c "GET")) = 500%Z
         /\ body (fst (handler p env c "GET"))
            = MessageBody "Error reading images directory" (Some error)
         /\ snd (handler p env c "GET") = c).
Proof.
  split; [|split; [|split]].
  - intros images Hc Ht.
    rewrite (handler_hit p env c images) by now apply freshCache_hit.
    repeat split.
  - intros workdir root Hmiss Hcwd Hroot.
    rewrite (handler_scan p env c workdir root)
      by (try apply freshCache_miss; assumption).
    repeat split.
  - intros workdir Hmiss Hcwd Hroot.
    rewrite (handler_missing_root p env c workdir)
      by (try apply freshCache_miss; assumption).
    repeat split.
  - intros error Hmiss Hcwd.
    rewrite (handler_throws p env c error)
      by (try apply freshCache_miss; assumption).
    repeat split.
Qed.

(** The cache is 29.999 seconds old and the directory has changed: the old
    inventory is served.  One millisecond later the scan is run again. *)
Lemma cache_freshness_witness :
  body (fst (handler Posix (serving (Some deepRoot) 30999) warmCache "GET"))
  = ImagesBody
      [ {| name := "a.png"; url := "/images/a.png"; path := "a.png";
           directory := rootLabel; size := 10 |};
        {| name := "c.jpg"; url := "/images/b/c.jpg"; path := "b/c.jpg";
           directory := "b"; size := 20 |} ]
  /\ snd (handler Posix (serving (Some deepRoot) 30999) warmCache "GET")
     = warmCache
  /\ body (fst (handler Posix (serving (Some deepRoot) 31000) warmCache "GET"))
     = ImagesBody (getImageFiles Posix "/app/public/images" "" deepRoot)
  /\ cacheTimestamp
       (snd (handler Posix (serving (Some deepRoot) 31000) warmCache "GET"))
     = 31000%Z.
Proof.
  destruct (cache_freshness Posix (serving (Some deepRoot) 30999) warmCache)
    as (Hhit & _).
  destruct (cache_freshness Posix (serving (Some deepRoot) 31000) warmCache)
    as (_ & Hmiss & _).
  destruct (Hhit (getImageFiles Posix "/app/public/images" "" exampleRoot))
    as (_ & Hbody & Hcache); [reflexivity|reflexivity|].
  destruct (Hmiss "/app"%string deepRoot)
    as (_ & Hbody' & _ & Hstamp);
    [right; discriminate|reflexivity|reflexivity|].
  repeat split; assumption.
Defined.

(** C1 as stated fails.  With no cached inventory, a [GET] during which
    [process.cwd()] throws answers with status 500 and no inventory, and
    stores nothing.  With a fresh cache, a request that is not a [GET] is
    answered with status 405 and not with the cached inventory. *)
Lemma miss_can_answer_error :
  ~ (forall env c method,
        (forall images,
            cachedImages c = Some images ->
            (now env - cacheTimestamp c < CACHE_DURATION)%Z ->
            body (fst (handler Posix env c method)) = ImagesBody images)
        /\ (cachedImages c = None
            \/ (CACHE_DURATION <= now env - cacheTimestamp c)%Z ->
            exists images,
              body (fst (handler Posix env c method)) = ImagesBody images
              /\ cachedImages (snd (handler Posix env c method)) = Some images
              /\ cacheTimestamp (snd (handler Posix env c method)) = now env))
  /\ status (fst (handler Posix (noWorkdir 60000) initialCache "GET")) = 500%Z
  /\ snd (handler Posix (noWorkdir 60000) initialCache "GET") = initialCache
  /\ status (fst (handler Posix (serving (Some exampleRoot) 2000)
                     warmCache "POST")) = 405%Z.
Proof.
  split; [|repeat split].
  intros H.
  destruct (H (noWorkdir 60000) initialCache "GET"%string) as [_ Hmiss].
  destruct Hmiss as (images & Hbody & _); [now left|].
  discriminate Hbody.
Qed.



(** C8. A request whose method is not [GET] is answered with status 405 and
    the cache is left as it is; the answer depends neither on the cache nor
    on the clock, the working directory or the file system. *)
Theorem method_not_allowed p env c method :
  method <> "GET"%string ->
  handler p env c method = (methodNotAllowed, c)
  /\ status (fst (handler p env c method)) = 405%Z.
Proof.
  intros H. rewrite handler_other_method by assumption. now split.
Qed.

Lemma method_not_allowed_witness :
  handler Posix (serving (Some exampleRoot) 5000) warmCache "POST"
  = (methodNotAllowed, warmCache).
Proof.
  apply (method_not_allowed Posix (serving (Some exampleRoot) 5000)
           warmCache "POST").
  discriminate.
Defined.

(** ** Failures while reading *)

Lemma getImageFiles_not_listable p dirPath relativePath t :
  listable t = false -> getImageFiles p dirPath relativePath t = [].
Proof. destruct t; [reflexivity|discriminate|reflexivity..]. Qed.

(** C5. A subdirectory whose listing cannot be read yields no descriptor,
    and the scan of its parent is the scan of the parent without it: the
    entries before and after it contribute as they would otherwise.  The
    caller gets an inventory, not an error: a [GET] that scans such a root
    answers with success and the inventory of the rest. *)
Theorem partial_failure_isolation p dirPath relativePath before itemName after :
  getImageFiles p (Path.join p dirPath itemName)
    (relativeItemPath p relativePath itemName) UnreadableDirectory = []
  /\ getImageFiles p dirPath relativePath
       (Directory (before ++ (itemName, UnreadableDirectory) :: after))
     = getImageFiles p dirPath relativePath (Directory (before ++ after))
  /\ (forall env c workdir,
         cachedImages c = None
         \/ (CACHE_DURATION <= now env - cacheTimestamp c)%Z ->
         cwd env = Returns workdir ->
         lookup env (imagesDirectory p workdir)
         = Some (Directory (before ++ (itemName, UnreadableDirectory) :: after)) ->
         fst (handler p env c "GET")
         = ok (getImageFiles p (imagesDirectory p workdir) ""
                 (Directory (before ++ after)))).
Proof.
  assert (Hdrop : forall dp rel,
             getImageFiles p dp rel
               (Directory (before ++ (itemName, UnreadableDirectory) :: after))
             = getImageFiles p dp rel (Directory (before ++ after))).
  { intros dp rel. rewrite !getImageFiles_Directory. apply scanItems_drop.
    intros rest. now rewrite scanItems_directory. }
  split; [reflexivity|]. split; [apply Hdrop|].
  intros env c workdir Hmiss Hcwd Hroot.
  erewrite handler_scan; eauto using freshCache_miss.
  cbn [fst]. now rewrite Hdrop.
Qed.

Lemma partial_failure_isolation_witness :
  fst (handler Posix
         (serving
            (Some (Directory
                     ([("a.png", RegularFile (Some 10%N))]
                      ++ ("locked", UnreadableDirectory)
                      :: [("b", Directory [("c.jpg", RegularFile (Some 20%N))])])))
            5000)
         initialCache "GET")
  = ok [describe Posix "" "a.png" 10%N; describe Posix "b" "c.jpg" 20%N].
Proof.
  destruct (partial_failure_isolation Posix "/app/public/images" ""
              [("a.png", RegularFile (Some 10%N))] "locked"
              [("b", Directory [("c.jpg", RegularFile (Some 20%N))])])
    as (_ & _ & Hhandler).
  rewrite (Hhandler (serving
            (Some (Directory
                     ([("a.png", RegularFile (Some 10%N))]
                      ++ ("locked", UnreadableDirectory)
                      :: [("b", Directory [("c.jpg", RegularFile (Some 20%N))])])))
            5000) initialCache "/app").
  - reflexivity.
  - left. reflexivity.
  - reflexivity.
  - reflexivity.
Defined.

(** When [statSync] throws on a recognized file, the loop of that directory
    stops there: what was pushed before is kept, the later entries of the
    same directory are not visited, and the parent goes on. *)
Example stat_failure_stops_directory :
  getImageFiles Posix "/srv" ""
    (Directory
       [("d", Directory [("1.png", RegularFile (Some 1%N));
                         ("2.png", RegularFile None);
                         ("3.png", RegularFile (Some 3%N))]);
        ("4.png", RegularFile (Some 4%N))])
  = [describe Posix "d" "1.png" 1%N; describe Posix "" "4.png" 4%N].
Proof. reflexivity. Qed.

(** C7.  The root exists, listing it throws, and the cache holds an older
    inventory: the handler does not answer with its error (status 500) but
    with status 200 and an empty inventory, and it replaces the cached
    inventory by the empty one. *)
Lemma unreadable_root_answers_empty :
  cwd (serving (Some UnreadableDirectory) 60000) = Returns "/app"
  /\ lookup (serving (Some UnreadableDirectory) 60000)
       (imagesDirectory Posix "/app")
     = Some UnreadableDirectory
  /\ cachedImages warmCache
     = Some [ {| name := "a.png"; url := "/images/a.png"; path := "a.png";
                 directory := rootLabel; size := 10 |};
              {| name := "c.jpg"; url := "/images/b/c.jpg";
                 path := "b/c.jpg"; directory := "b"; size := 20 |} ]
  /\ status (fst (handler Posix (serving (Some UnreadableDirectory) 60000)
                     warmCache "GET")) = 200%Z
  /\ body (fst (handler Posix (serving (Some UnreadableDirectory) 60000)
                   warmCache "GET")) = ImagesBody []
  /\ cachedImages (snd (handler Posix (serving (Some UnreadableDirectory) 60000)
                          warmCache "GET")) = Some []
  /\ cacheTimestamp (snd (handler Posix
                            (serving (Some UnreadableDirectory) 60000)
                            warmCache "GET")) = 60000%Z
  /\ ~ (status (fst (handler Posix (serving (Some UnreadableDirectory) 60000)
                       warmCache "GET")) = 500%Z
        /\ snd (handler Posix (serving (Some UnreadableDirectory) 60000)
                  warmCache "GET") = warmCache).
Proof.
  repeat split.
  intros [Hstatus _]. discriminate Hstatus.
Qed.

(** The failures the handler meets.  A failure to list the root is absorbed
    by the scanner like any other: on a cache miss the handler answers with
    success and an empty inventory, which it stores with the time
    [now env].  The error answer (status 500) is given when an exception
    escapes inside the handler's own [try] block, here [process.cwd()]
    throwing; then, and whenever the status is 500, the cache is left as
    it was. *)
Theorem root_failure_handling p env c :
  (forall workdir root,
      cachedImages c = None
      \/ (CACHE_DURATION <= now env - cacheTimestamp c)%Z ->
      cwd env = Returns workdir ->
      lookup env (imagesDirectory p workdir) = Some root ->
      listable root = false ->
      handler p env c "GET"
      = (ok [], {| cachedImages := Some []; cacheTimestamp := now env |}))
  /\ (forall error,
         cachedImages c = None
         \/ (CACHE_DURATION <= now env - cacheTimestamp c)%Z ->
         cwd env = Throws error ->
         handler p env c "GET" = (serverError error, c))
  /\ (forall method,
         status (fst (handler p env c method)) = 500%Z ->
         snd (handler p env c method) = c
         /\ exists error, cwd env = Throws error).
Proof.
  split; [|split].
  - intros workdir root Hmiss Hcwd Hroot Hlist.
    rewrite (handler_scan p env c workdir root);
      auto using freshCache_miss.
    now rewrite getImageFiles_not_listable.
  - intros error Hmiss Hcwd.
    apply handler_throws; auto using freshCache_miss.
  - intros method. unfold handler.
    destruct (negb (method =? "GET")%string); [discriminate|].
    destruct (freshCache c (now env)); [discriminate|].
    destruct (cwd env) as [workdir|error].
    + destruct (lookup env (imagesDirectory p workdir)); discriminate.
    + intros _. split; [reflexivity|now exists error].
Qed.

Lemma root_failure_handling_witness :
  handler Posix (serving (Some (RegularFile (Some 3%N))) 60000) warmCache "GET"
  = (ok [], {| cachedImages := Some []; cacheTimestamp := 60000 |})
  /\ handler Posix
       {| now := 60000; cwd := Throws "Error: ENOENT: uv_cwd";
          lookup := fun _ => None |}
       warmCache "GET"
     = (serverError "Error: ENOENT: uv_cwd", warmCache).
Proof.
  split.
  - apply (proj1 (root_failure_handling Posix
                    (serving (Some (RegularFile (Some 3%N))) 60000) warmCache)
             "/app" (RegularFile (Some 3%N))).
    + right. discriminate.
    + reflexivity.
    + reflexivity.
    + reflexivity.
  - apply (proj1 (proj2 (root_failure_handling Posix
                    {| now := 60000; cwd := Throws "Error: ENOENT: uv_cwd";
                       lookup := fun _ => None |} warmCache))).
    + right. discriminate.
    + reflexivity.
Defined.

(** * Further properties of the scanner *)

(** X1. When [statSync] throws on a recognized file, the loop of that
    directory ends there: the result is the scan of the entries before the
    file, and the entries after it are not visited. *)
Theorem stat_failure_truncates p dirPath relativePath before itemName after :
  hasImageExtension itemName = true ->
  getImageFiles p dirPath relativePath
    (Directory (before ++ (itemName, RegularFile None) :: after))
  = getImageFiles p dirPath relativePath (Directory before).
Proof.
  intros Himage. rewrite !getImageFiles_Directory.
  induction before as [|[n item] before IH].
  - now apply scanItems_stat_throws.
  - rewrite <- app_comm_cons.
    destruct item as [[fileSize|]|sub| |target|].
    + destruct (hasImageExtension n) eqn:E.
      * rewrite !scanItems_file by assumption. now rewrite IH.
      * now rewrite !scanItems_file_skipped by assumption.
    + destruct (hasImageExtension n) eqn:E.
      * now rewrite !scanItems_stat_throws by assumption.
      * now rewrite !scanItems_file_skipped by assumption.
    + rewrite !scanItems_directory by reflexivity. now rewrite IH.
    + rewrite !scanItems_directory by reflexivity. now rewrite IH.
    + now rewrite !scanItems_other by reflexivity.
    + now rewrite !scanItems_other by reflexivity.
Qed.

Lemma stat_failure_truncates_witness :
  getImageFiles Posix "/srv" ""
    (Directory ([("1.png", RegularFile (Some 1%N))]
                ++ ("2.png", RegularFile None)
                :: [("3.png", RegularFile (Some 3%N));
                    ("d", Directory [("4.png", RegularFile (Some 4%N))])]))
  = [describe Posix "" "1.png" 1%N].
Proof.
  rewrite (stat_failure_truncates Posix "/srv" ""
             [("1.png", RegularFile (Some 1%N))] "2.png");
    reflexivity.
Defined.

(** X2. The scan of a listing is the scan of its first part followed by the
    scan of the rest, in the order of the listing, when [statSync] fails on
    no recognized file directly in the first part. *)
Theorem scan_of_concatenation p dirPath relativePath before after :
  loopCompletes before = true ->
  getImageFiles p dirPath relativePath (Directory (before ++ after))
  = getImageFiles p dirPath relativePath (Directory before)
    ++ getImageFiles p dirPath relativePath (Directory after).
Proof.
  intros H. rewrite !getImageFiles_Directory. now apply scanItems_app.
Qed.

Lemma scan_of_concatenation_witness :
  getImageFiles Posix "/srv" ""
    (Directory ([("b", Directory [("c.jpg", RegularFile None);
                                  ("d.jpg", RegularFile (Some 2%N))])]
                ++ [("a.png", RegularFile (Some 1%N))]))
  = [] ++ [describe Posix "" "a.png" 1%N].
Proof.
  rewrite (scan_of_concatenation Posix "/srv" ""
             [("b", Directory [("c.jpg", RegularFile None);
                               ("d.jpg", RegularFile (Some 2%N))])]
             [("a.png", RegularFile (Some 1%N))]);
    reflexivity.
Defined.

Lemma scanned_fields p t :
  forall dirPath relativePath d,
    In d (getImageFiles p dirPath relativePath t) ->
    Str.is_empty (directory d) = false
    /\ ((directory d = rootLabel /\ path d = name d)
        \/ path d = Path.join p (directory d) (name d)).
Proof.
  induction t as [stat|items IH| |target|] using node_tree_ind;
    intros dirPath relativePath d Hd; try contradiction.
  rewrite getImageFiles_Directory in Hd.
  induction IH as [|[itemName item] rest Hitem _ IHrest]; [contradiction|].
  simpl in Hitem.
  destruct item as [[fileSize|]|sub| |target|].
  - destruct (hasImageExtension itemName) eqn:E.
    + rewrite scanItems_file in Hd by assumption.
      destruct Hd as [<-|Hd]; [|auto].
      unfold describe, relativeItemPath. cbn [directory path name].
      destruct (Str.is_empty relativePath) eqn:Hrel; auto.
    + rewrite scanItems_file_skipped in Hd by assumption. auto.
  - destruct (hasImageExtension itemName) eqn:E.
    + rewrite scanItems_stat_throws in Hd by assumption. contradiction.
    + rewrite scanItems_file_skipped in Hd by assumption. auto.
  - rewrite scanItems_directory in Hd by reflexivity.
    apply in_app_or in Hd as [Hd|Hd]; eauto.
  - rewrite scanItems_directory in Hd by reflexivity.
    apply in_app_or in Hd as [Hd|Hd]; eauto.
  - rewrite scanItems_other in Hd by reflexivity. auto.
  - rewrite scanItems_other in Hd by reflexivity. auto.
Qed.

Lemma scan_sound p t :
  forall dirPath folders d,
    namesNonEmpty t = true ->
    Forall (fun s => Str.is_empty s = false) folders ->
    In d (getImageFiles p dirPath (joinAll p folders) t) ->
    exists f,
      In f (filesOf t) /\ recognized f = true
      /\ d = descriptorAt p (below folders f).
Proof.
  induction t as [stat|items IH| |target|] using node_tree_ind;
    intros dirPath folders d Hnames Hfolders Hd; try contradiction.
  rewrite getImageFiles_Directory in Hd.
  induction IH as [|[itemName item] rest Hitem _ IHrest]; [contradiction|].
  simpl in Hitem.
  change (namesNonEmpty (Directory ((itemName, item) :: rest)))
    with ((negb (Str.is_empty itemName) && namesNonEmpty item)
          && namesNonEmpty (Directory rest)) in Hnames.
  apply andb_true_iff in Hnames as [Hnames_item Hnames_rest].
  apply andb_true_iff in Hnames_item as [Hname Hnames_item].
  apply negb_true_iff in Hname.
  assert (Hlater :
            In d (scanItems p dirPath (joinAll p folders) rest) ->
            exists f,
              In f (filesOf (Directory ((itemName, item) :: rest)))
              /\ recognized f = true
              /\ d = descriptorAt p (below folders f)).
  { intros H. destruct (IHrest Hnames_rest H) as (f & Hf & Hrest).
    exists f. split; [|exact Hrest].
    rewrite filesOf_cons. apply in_or_app. now right. }
  destruct item as [[fileSize|]|sub| |target|].
  - destruct (hasImageExtension itemName) eqn:E.
    + rewrite scanItems_file in Hd by assumption.
      destruct Hd as [<-|Hd]; [|auto].
      exists ([], itemName, fileSize). repeat split.
      * rewrite filesOf_cons. now left.
      * exact E.
      * now apply describe_descriptorAt.
    + rewrite scanItems_file_skipped in Hd by assumption. auto.
  - destruct (hasImageExtension itemName) eqn:E.
    + rewrite scanItems_stat_throws in Hd by assumption. contradiction.
    + rewrite scanItems_file_skipped in Hd by assumption. auto.
  - rewrite scanItems_directory in Hd by reflexivity.
    apply in_app_or in Hd as [Hd|Hd]; [|auto].
    rewrite <- joinAll_snoc in Hd by assumption.
    apply Hitem in Hd as (f & Hf & Hrec & ->).
    + exists (below [itemName] f). repeat split.
      * rewrite filesOf_cons. apply in_or_app. left. now apply in_map.
      * exact Hrec.
      * now rewrite below_below.
    + assumption.
    + apply Forall_app. split; [assumption|]. now constructor.
  - rewrite scanItems_directory in Hd by reflexivity.
    apply in_app_or in Hd as [Hd|Hd]; [contradiction|auto].
  - rewrite scanItems_other in Hd by reflexivity. auto.
  - rewrite scanItems_other in Hd by reflexivity. auto.
Qed.

(** X3. Whether or not parts of the tree fail to be read, every descriptor
    of a scan describes a regular file of the tree that can be [stat]ed
    and has an allow-listed extension, at the place of that file: [name]
    is the file's name, [size] its size, [path] the names from the root
    down to the file joined by the host separator, [directory] the joined
    names of its folders (the root label when it has none) and [url] is
    [/images/] followed by that path with forward slashes.  Entry names
    are not empty, as on any file system. *)
Theorem descriptors_are_files p dirPath root d :
  namesNonEmpty root = true ->
  In d (getImageFiles p dirPath "" root) ->
  exists folders fileName fileSize,
    In (folders, fileName, fileSize) (filesOf root)
    /\ hasImageExtension fileName = true
    /\ name d = fileName
    /\ size d = fileSize
    /\ path d = joinAll p (folders ++ [fileName])
    /\ directory d = match folders with
                     | [] => rootLabel
                     | _ :: _ => joinAll p folders
                     end
    /\ url d = ("/images/"
                ++ Str.replace_backslashes
                     (joinAll p (folders ++ [fileName])))%string.
Proof.
  intros Hnames Hd.
  destruct (scan_sound p root dirPath [] d Hnames (Forall_nil _) Hd)
    as ([[folders fileName] fileSize] & Hf & Hrec & ->).
  exists folders, fileName, fileSize.
  repeat split; assumption.
Qed.

Lemma descriptors_are_files_witness :
  exists folders fileName fileSize,
    In (folders, fileName, fileSize)
       (filesOf
          (Directory
             [("d", Directory [("1.png", RegularFile (Some 1%N));
                               ("2.png", RegularFile None);
                               ("3.png", RegularFile (Some 3%N))]);
              ("locked", UnreadableDirectory);
              ("4.png", RegularFile (Some 4%N))]))
    /\ hasImageExtension fileName = true
    /\ "1.png"%string = fileName
    /\ 1%N = fileSize
    /\ "d/1.png"%string = joinAll Posix (folders ++ [fileName])
    /\ "d"%string = match folders with
                    | [] => rootLabel
                    | _ :: _ => joinAll Posix folders
                    end
    /\ "/images/d/1.png"%string
       = ("/images/"
          ++ Str.replace_backslashes
               (joinAll Posix (folders ++ [fileName])))%string.
Proof.
  apply (descriptors_are_files Posix "/srv"
           (Directory
              [("d", Directory [("1.png", RegularFile (Some 1%N));
                                ("2.png", RegularFile None);
                                ("3.png", RegularFile (Some 3%N))]);
               ("locked", UnreadableDirectory);
               ("4.png", RegularFile (Some 4%N))])
           (describe Posix "d" "1.png" 1%N)).
  - reflexivity.
  - simpl. left. reflexivity.
Defined.

(** ** Uniqueness of [url] *)

Lemma allNames_cons good itemName item rest :
  allNames good (Directory ((itemName, item) :: rest)) = true
  <-> good itemName = true
      /\ allNames good item = true
      /\ allNames good (Directory rest) = true.
Proof.
  change (allNames good (Directory ((itemName, item) :: rest)))
    with ((good itemName && allNames good item)
          && allNames good (Directory rest)).
  rewrite !andb_true_iff. tauto.
Qed.

Lemma allNames_weaken (good good' : string -> bool) t :
  (forall itemName, good itemName = true -> good' itemName = true) ->
  allNames good t = true -> allNames good' t = true.
Proof.
  intros Himp.
  induction t as [stat|items IH| |target|] using node_tree_ind;
    try reflexivity.
  induction IH as [|[itemName item] rest Hitem _ IHrest]; [reflexivity|].
  simpl in Hitem. rewrite !allNames_cons.
  intros (Hname & Hsub & Hrest). auto.
Qed.

(** A character that is not the separator and occurs in no name occurs in
    no path. *)
Lemma paths_free_of p c t :
  Ascii.eqb c (Path.sep p) = false ->
  forall dirPath relativePath d,
    allNames (fun itemName => negb (Str.mem c itemName)) t = true ->
    Str.mem c relativePath = false ->
    In d (getImageFiles p dirPath relativePath t) ->
    Str.mem c (path d) = false.
Proof.
  intros Hsep.
  assert (Hjoin : forall relativePath itemName,
             Str.mem c relativePath = false ->
             Str.mem c itemName = false ->
             Str.mem c (relativeItemPath p relativePath itemName) = false).
  { intros relativePath itemName Hrel Hname.
    unfold relativeItemPath, Path.join.
    destruct (Str.is_empty relativePath); [exact Hname|].
    rewrite mem_append, Hrel. cbn [Str.mem]. now rewrite Hsep, Hname. }
  induction t as [stat|items IH| |target|] using node_tree_ind;
    intros dirPath relativePath d Hnames Hrel Hd; try contradiction.
  rewrite getImageFiles_Directory in Hd.
  induction IH as [|[itemName item] rest Hitem _ IHrest]; [contradiction|].
  simpl in Hitem.
  apply allNames_cons in Hnames as (Hname & Hnames_item & Hnames_rest).
  apply negb_true_iff in Hname.
  specialize (IHrest Hnames_rest).
  destruct item as [[fileSize|]|sub| |target|].
  - destruct (hasImageExtension itemName) eqn:E.
    + rewrite scanItems_file in Hd by assumption.
      destruct Hd as [<-|Hd]; [|auto]. now apply Hjoin.
    + rewrite scanItems_file_skipped in Hd by assumption. auto.
  - destruct (hasImageExtension itemName) eqn:E.
    + rewrite scanItems_stat_throws in Hd by assumption. contradiction.
    + rewrite scanItems_file_skipped in Hd by assumption. auto.
  - rewrite scanItems_directory in Hd by reflexivity.
    apply in_app_or in Hd as [Hd|Hd]; [|auto].
    apply Hitem in Hd; auto.
  - rewrite scanItems_directory in Hd by reflexivity.
    apply in_app_or in Hd as [Hd|Hd]; [contradiction|auto].
  - rewrite scanItems_other in Hd by reflexivity. auto.
  - rewrite scanItems_other in Hd by reflexivity. auto.
Qed.

Lemma replace_backslashes_inj_no_slash s1 s2 :
  Str.mem Str.slash s1 = false ->
  Str.mem Str.slash s2 = false ->
  Str.replace_backslashes s1 = Str.replace_backslashes s2 ->
  s1 = s2.
Proof.
  revert s2.
  induction s1 as [|c1 s1 IH]; intros [|c2 s2] H1 H2 Heq;
    try reflexivity; try discriminate.
  cbn [Str.mem Str.replace_backslashes] in *.
  apply orb_false_iff in H1 as [Hc1 H1].
  apply orb_false_iff in H2 as [Hc2 H2].
  injection Heq as Hc Heq.
  f_equal; [|now apply IH].
  destruct (Ascii.eqb_spec c1 Str.backslash) as [->|N1];
    destruct (Ascii.eqb_spec c2 Str.backslash) as [->|N2];
    try reflexivity.
  - subst c2. rewrite Ascii.eqb_refl in Hc2. discriminate.
  - subst c1. rewrite Ascii.eqb_refl in Hc1. discriminate.
  - exact Hc.
Qed.

(** X4. Where no entry name holds a slash or a backslash, and no listing holds a
    name twice, no two descriptors of a scan have the same [url]. *)
Theorem url_unique p dirPath root :
  wellNamed p root = true ->
  plainNames root = true ->
  distinctNames root ->
  NoDup (map url (getImageFiles p dirPath "" root)).
Proof.
  intros Hwell Hplain Hdistinct.
  pose proof (scan_paths_unique p root dirPath "" Hwell Hdistinct) as Hpaths.
  rewrite (map_ext_in url
             (fun d => ("/images/" ++ Str.replace_backslashes (path d))%string))
    by (intros d Hd; eapply scanned_url; eassumption).
  rewrite <- (map_map path
               (fun s => ("/images/" ++ Str.replace_backslashes s)%string)).
  apply NoDup_map_NoDup_ForallPairs; [|exact Hpaths].
  intros s1 s2 Hs1 Hs2 Heq.
  apply in_map_iff in Hs1 as (d1 & <- & Hd1).
  apply in_map_iff in Hs2 as (d2 & <- & Hd2).
  apply append_inv_head in Heq.
  destruct p.
  - assert (Hfree : forall d,
               In d (getImageFiles Posix dirPath "" root) ->
               Str.mem Str.backslash (path d) = false).
    { intros d Hd.
      apply (paths_free_of Posix Str.backslash root eq_refl dirPath "" d);
        [|reflexivity|exact Hd].
      revert Hplain. apply allNames_weaken.
      intros n Hn. apply andb_true_iff in Hn. tauto. }
    rewrite !replace_backslashes_id in Heq by auto. exact Heq.
  - assert (Hfree : forall d,
               In d (getImageFiles Win32 dirPath "" root) ->
               Str.mem Str.slash (path d) = false).
    { intros d Hd.
      apply (paths_free_of Win32 Str.slash root eq_refl dirPath "" d);
        [|reflexivity|exact Hd].
      revert Hplain. apply allNames_weaken.
      intros n Hn. apply andb_true_iff in Hn. tauto. }
    apply replace_backslashes_inj_no_slash; auto.
Qed.

Lemma url_unique_witness :
  NoDup (map url (getImageFiles Win32 "C:\images" "" deepRoot)).
Proof.
  apply (url_unique Win32 "C:\images" deepRoot).
  - reflexivity.
  - reflexivity.
  - simpl. repeat split; repeat constructor; simpl; intuition discriminate.
Defined.

(** With a backslash in a name two files can share one [url]. *)
Example colliding_urls :
  map url
    (getImageFiles Posix "/srv/images" ""
       (Directory [("a\b.png", RegularFile (Some 1%N));
                   ("a", Directory [("b.png", RegularFile (Some 2%N))])]))
  = ["/images/a/b.png"; "/images/a/b.png"].
Proof. reflexivity. Qed.

(** ** Extensions in any letter case *)

Lemma lower_ascii_dot c :
  Ascii.eqb "."%char (Str.lower_ascii c) = Ascii.eqb "."%char c.
Proof.
  destruct c as [[] [] [] [] [] [] [] []]; reflexivity.
Qed.

Lemma mem_dot_toLowerCase s :
  Str.mem "."%char (Str.toLowerCase s) = Str.mem "."%char s.
Proof.
  induction s as [|c s IH]; [reflexivity|].
  cbn [Str.toLowerCase Str.mem]. now rewrite lower_ascii_dot, IH.
Qed.

Lemma from_last_dot_none s :
  Str.mem "."%char s = false -> Path.from_last_dot s = None.
Proof.
  induction s as [|c s IH]; [reflexivity|].
  cbn [Str.mem Path.from_last_dot]. intros H.
  apply orb_false_iff in H as [Hc Hs].
  rewrite (IH Hs), Ascii.eqb_sym, Hc. reflexivity.
Qed.

Lemma from_last_dot_append s w :
  Str.mem "."%char w = false ->
  Path.from_last_dot (s ++ String "."%char w) = Some (String "."%char w).
Proof.
  intros Hw. induction s as [|c s IH].
  - cbn [append Path.from_last_dot].
    now rewrite (from_last_dot_none w Hw).
  - cbn [append Path.from_last_dot]. now rewrite IH.
Qed.

Lemma extname_append stem w :
  Str.is_empty stem = false ->
  Str.is_empty w = false ->
  Str.mem "."%char w = false ->
  Path.extname (stem ++ String "."%char w) = String "."%char w.
Proof.
  intros Hstem Hw Hdots.
  destruct stem as [|c stem]; [discriminate|].
  cbn [append]. unfold Path.extname.
  rewrite from_last_dot_append by assumption.
  destruct (String.eqb_spec (String c (stem ++ String "."%char w)) "..")
    as [Heq|_]; [|reflexivity].
  exfalso. injection Heq as _ Heq.
  destruct stem as [|c' stem]; cbn [append] in Heq.
  - injection Heq as Heq. subst w. discriminate.
  - injection Heq as _ Heq. destruct stem; discriminate.
Qed.

(** X5. A name made of a stem that is not empty and of an allow-listed
    extension written in any letter case is recognized. *)
Theorem any_case_extension_recognized stem e e' :
  Str.is_empty stem = false ->
  In e imageExtensions ->
  Str.toLowerCase e' = e ->
  hasImageExtension (stem ++ e') = true.
Proof.
  intros Hstem He Hlower.
  assert (Hshape : exists w, e' = String "."%char w
                             /\ Str.is_empty w = false
                             /\ Str.mem "."%char w = false).
  { destruct e' as [|c w].
    - subst e. unfold imageExtensions in He. simpl in He.
      repeat (destruct He as [He|He]; [discriminate|]). contradiction.
    - exists w. cbn [Str.toLowerCase] in Hlower.
      assert (Hc : Ascii.eqb "."%char (Str.lower_ascii c) = true
                   /\ Str.is_empty (Str.toLowerCase w) = false
                   /\ Str.mem "."%char (Str.toLowerCase w) = false).
      { subst e. unfold imageExtensions in He. simpl in He.
        repeat (destruct He as [He|He];
                [injection He as <- <-; repeat split; reflexivity|]).
        contradiction. }
      destruct Hc as (Hc & Hw & Hdots).
      rewrite lower_ascii_dot in Hc. apply Ascii.eqb_eq in Hc. subst c.
      rewrite mem_dot_toLowerCase in Hdots.
      repeat split; [|exact Hdots].
      destruct w; [discriminate|reflexivity]. }
  destruct Hshape as (w & -> & Hw & Hdots).
  unfold hasImageExtension.
  rewrite extname_append by assumption.
  rewrite Hlower. now apply includes_In.
Qed.

Lemma any_case_extension_recognized_witness :
  hasImageExtension ("Holiday 01" ++ ".JpEg") = true.
Proof.
  apply (any_case_extension_recognized "Holiday 01" ".jpeg" ".JpEg").
  - reflexivity.
  - simpl. tauto.
  - reflexivity.
Defined.

(** * Further properties of the handler *)

(** The cases of one call of the handler. *)
Lemma handler_cases p env c method :
  (method <> "GET"%string
   /\ handler p env c method = (methodNotAllowed, c))
  \/ (method = "GET"%string
      /\ exists inventory,
          freshCache c (now env) = Some inventory
          /\ handler p env c method = (ok inventory, c))
  \/ (method = "GET"%string
      /\ freshCache c (now env) = None
      /\ exists error,
          cwd env = Throws error
          /\ handler p env c method = (serverError error, c))
  \/ (method = "GET"%string
      /\ freshCache c (now env) = None
      /\ exists workdir,
          cwd env = Returns workdir
          /\ handler p env c method
             = (ok (scanOf p env workdir),
                {| cachedImages := Some (scanOf p env workdir);
                   cacheTimestamp := now env |})).
Proof.
  destruct (String.eqb_spec method "GET") as [->|Hmethod].
  - right. unfold handler, scanOf. cbn [String.eqb Ascii.eqb Bool.eqb negb].
    destruct (freshCache c (now env)) as [inventory|] eqn:Hfresh.
    + left. eauto.
    + right. destruct (cwd env) as [workdir|error] eqn:Hcwd.
      * right. repeat split. exists workdir. split; [reflexivity|].
        destruct (lookup env (imagesDirectory p workdir)); reflexivity.
      * left. repeat split. eauto.
  - left. split; [assumption|]. now apply handler_other_method.
Qed.

Lemma freshCache_Some c t inventory :
  freshCache c t = Some inventory -> cachedImages c = Some inventory.
Proof.
  unfold freshCache. destruct (cachedImages c); [|discriminate].
  destruct (t - cacheTimestamp c <? CACHE_DURATION)%Z; congruence.
Qed.

(** X6. Whenever the handler answers with status 200, the inventory in the body
    is the one the cache holds after the call. *)
Theorem response_is_cache_content p env c method :
  status (fst (handler p env c method)) = 200%Z ->
  exists inventory,
    body (fst (handler p env c method)) = ImagesBody inventory
    /\ cachedImages (snd (handler p env c method)) = Some inventory.
Proof.
  destruct (handler_cases p env c method)
    as [(_ & ->)|[(_ & inventory & Hfresh & ->)
                 |[(_ & _ & error & _ & ->)|(_ & _ & workdir & _ & ->)]]];
    cbn [fst snd]; intros Hstatus; try discriminate.
  - exists inventory. split; [reflexivity|].
    now apply freshCache_Some in Hfresh.
  - exists (scanOf p env workdir). split; reflexivity.
Qed.

Lemma response_is_cache_content_witness :
  exists inventory,
    body (fst (handler Posix (serving (Some deepRoot) 31000) warmCache "GET"))
    = ImagesBody inventory
    /\ cachedImages
         (snd (handler Posix (serving (Some deepRoot) 31000) warmCache "GET"))
       = Some inventory.
Proof.
  apply (response_is_cache_content Posix (serving (Some deepRoot) 31000)
           warmCache "GET").
  reflexivity.
Defined.

(** X7. The handler answers with status 200, 405 or 500 and nothing else, and
    it sets the [Cache-Control] header on the answers with status 200 and
    on no other. *)
Theorem caching_header_on_success p env c method :
  (status (fst (handler p env c method)) = 200%Z
   /\ headers (fst (handler p env c method)) = [cacheHeader])
  \/ ((status (fst (handler p env c method)) = 405%Z
       \/ status (fst (handler p env c method)) = 500%Z)
      /\ headers (fst (handler p env c method)) = []).
Proof.
  destruct (handler_cases p env c method)
    as [(_ & ->)|[(_ & inventory & _ & ->)
                 |[(_ & _ & error & _ & ->)|(_ & _ & workdir & _ & ->)]]];
    cbn [fst]; auto.
Qed.

(** X8. The handler never empties the cache, and it changes the cache only on
    a [GET] that misses it; the new entry is then stamped with the time of
    that request. *)
Theorem cache_only_refilled p env c method :
  snd (handler p env c method) = c
  \/ (method = "GET"%string
      /\ freshCache c (now env) = None
      /\ cacheTimestamp (snd (handler p env c method)) = now env
      /\ cachedImages (snd (handler p env c method)) <> None).
Proof.
  destruct (handler_cases p env c method)
    as [(_ & ->)|[(_ & inventory & _ & ->)
                 |[(_ & _ & error & _ & ->)
                  |(Hget & Hmiss & workdir & _ & ->)]]];
    cbn [fst snd]; auto.
  right. repeat split; auto. discriminate.
Qed.

(** ** Runs of requests *)

Lemma serveAll_cons p c env method rest :
  serveAll p c ((env, method) :: rest)
  = (fst (handler p env c method)
       :: fst (serveAll p (snd (handler p env c method)) rest),
     snd (serveAll p (snd (handler p env c method)) rest)).
Proof.
  cbn [serveAll]. destruct (handler p env c method) as [response c'].
  cbn [fst snd]. destruct (serveAll p c' rest). reflexivity.
Qed.

(** X9. While the cached inventory is younger than [CACHE_DURATION] at every
    request of a run, every [GET] of the run is answered with that
    inventory, every other request with status 405, and the cache is left
    as it was, whatever happens to the file system meanwhile. *)
Theorem fresh_run_is_served_from_cache p c inventory requests :
  cachedImages c = Some inventory ->
  (forall env method,
      In (env, method) requests ->
      (now env - cacheTimestamp c < CACHE_DURATION)%Z) ->
  serveAll p c requests
  = (map (fun request =>
            if String.eqb (snd request) "GET" then ok inventory
            else methodNotAllowed) requests,
     c).
Proof.
  intros Hc. induction requests as [|[env method] rest IH]; intros Hfresh;
    [reflexivity|].
  rewrite serveAll_cons.
  assert (Hstep : handler p env c method
                  = (if String.eqb method "GET" then ok inventory
                     else methodNotAllowed, c)).
  { destruct (String.eqb_spec method "GET") as [->|Hother].
    - apply handler_hit, freshCache_hit; [assumption|].
      apply (Hfresh env "GET"%string). now left.
    - now apply handler_other_method. }
  rewrite Hstep. cbn [fst snd map].
  rewrite IH; [reflexivity|].
  intros env' method' Hin. apply (Hfresh env' method'). now right.
Qed.

Lemma fresh_run_is_served_from_cache_witness :
  serveAll Posix warmCache
    [(serving (Some deepRoot) 2000, "GET"%string);
     (serving None 15000, "DELETE"%string);
     (serving (Some UnreadableDirectory) 30999, "GET"%string)]
  = ([ok (getImageFiles Posix "/app/public/images" "" exampleRoot);
      methodNotAllowed;
      ok (getImageFiles Posix "/app/public/images" "" exampleRoot)],
     warmCache).
Proof.
  rewrite (fresh_run_is_served_from_cache Posix warmCache
             (getImageFiles Posix "/app/public/images" "" exampleRoot)).
  - reflexivity.
  - reflexivity.
  - intros env method [H|[H|[H|[]]]]; injection H as <- _; reflexivity.
Defined.

(** X10. After any run of requests from the start of the process, the cache is
    still empty or holds what the scan of one [GET] of the run found,
    stamped with the time of that request. *)
Theorem cache_holds_a_scan_of_the_run p requests :
  snd (serveAll p initialCache requests) = initialCache
  \/ exists env workdir,
      In (env, "GET"%string) requests
      /\ cwd env = Returns workdir
      /\ snd (serveAll p initialCache requests)
         = {| cachedImages := Some (scanOf p env workdir);
              cacheTimestamp := now env |}.
Proof.
  enough (Hrun : forall rest (seen : Env -> Prop) c0,
             (c0 = initialCache
              \/ exists env workdir,
                  seen env /\ cwd env = Returns workdir
                  /\ c0 = {| cachedImages := Some (scanOf p env workdir);
                             cacheTimestamp := now env |}) ->
             snd (serveAll p c0 rest) = initialCache
             \/ exists env workdir,
                 (seen env \/ In (env, "GET"%string) rest)
                 /\ cwd env = Returns workdir
                 /\ snd (serveAll p c0 rest)
                    = {| cachedImages := Some (scanOf p env workdir);
                         cacheTimestamp := now env |}).
  { destruct (Hrun requests (fun _ => False) initialCache (or_introl eq_refl))
      as [H|(env & workdir & [[]|Hin] & Hcwd & H)];
      [now left|right; eauto]. }
  clear requests.
  induction rest as [|[env method] rest IH]; intros seen c0 Hc0.
  - cbn [serveAll snd].
    destruct Hc0 as [Hc0|(env & workdir & Hin & Hcwd & Hc0)];
      [now left|right; eauto 6].
  - rewrite serveAll_cons. cbn [snd].
    destruct (IH (fun e => seen e \/ (e = env /\ method = "GET"%string))
                (snd (handler p env c0 method)))
      as [H|(env' & workdir' & Hin & Hcwd' & H)].
    + destruct (handler_cases p env c0 method)
        as [(_ & ->)|[(_ & inventory & _ & ->)
                     |[(_ & _ & error & _ & ->)
                      |(Hget & _ & workdir & Hcwd & ->)]]];
        cbn [snd].
      * destruct Hc0 as [Hc0|(e & w & He & Hw & Hc0)];
          [now left|right; exists e, w; auto].
      * destruct Hc0 as [Hc0|(e & w & He & Hw & Hc0)];
          [now left|right; exists e, w; auto].
      * destruct Hc0 as [Hc0|(e & w & He & Hw & Hc0)];
          [now left|right; exists e, w; auto].
      * right. exists env, workdir. auto.
    + now left.
    + right. exists env', workdir'. repeat split; try assumption.
      destruct Hin as [[Hseen|[-> ->]]|Hin].
      * now left.
      * right. now left.
      * right. now right.
Qed.

Lemma scanOf_recognized p env workdir d :
  In d (scanOf p env workdir) -> hasImageExtension (name d) = true.
Proof.
  unfold scanOf. destruct (lookup env (imagesDirectory p workdir));
    [apply scanned_names_recognized|contradiction].
Qed.

Lemma served_from_good_cache p requests :
  forall c,
    (forall inventory d,
        cachedImages c = Some inventory -> In d inventory ->
        hasImageExtension (name d) = true) ->
    forall response inventory d,
      In response (fst (serveAll p c requests)) ->
      body response = ImagesBody inventory ->
      In d inventory ->
      hasImageExtension (name d) = true.
Proof.
  induction requests as [|[env method] rest IH];
    intros c Hgood response inventory d Hin Hbody Hd; [contradiction|].
  rewrite serveAll_cons in Hin. cbn [fst] in Hin.
  destruct Hin as [<-|Hin].
  - destruct (handler_cases p env c method)
      as [(_ & Hh)|[(_ & cached & Hfresh & Hh)
                   |[(_ & _ & error & _ & Hh)|(_ & _ & workdir & _ & Hh)]]];
      rewrite Hh in Hbody; cbn [fst body ok] in Hbody; try discriminate.
    + injection Hbody as <-. apply freshCache_Some in Hfresh. eauto.
    + injection Hbody as <-. eapply scanOf_recognized; eauto.
  - apply (IH (snd (handler p env c method))) with response inventory;
      try assumption.
    destruct (handler_cases p env c method)
      as [(_ & ->)|[(_ & cached & _ & ->)
                   |[(_ & _ & error & _ & ->)|(_ & _ & workdir & _ & ->)]]];
      cbn [snd]; try exact Hgood.
    cbn [cachedImages]. intros inv d' Hinv Hd'. injection Hinv as <-.
    eapply scanOf_recognized; eauto.
Qed.

(** X11. In any run of requests from the start of the process, every descriptor
    in every inventory the handler sends carries a name with an allow-listed
    extension. *)
Theorem served_names_recognized p requests response inventory d :
  In response (fst (serveAll p initialCache requests)) ->
  body response = ImagesBody inventory ->
  In d inventory ->
  hasImageExtension (name d) = true.
Proof.
  apply served_from_good_cache. intros inv d' H. discriminate H.
Qed.

Lemma served_names_recognized_witness :
  hasImageExtension (name (describe Posix "b" "c.jpg" 20%N)) = true.
Proof.
  apply (served_names_recognized Posix
           [(serving (Some exampleRoot) 1000, "GET"%string);
            (serving None 2000, "GET"%string)]
           (ok (getImageFiles Posix "/app/public/images" "" exampleRoot))
           (getImageFiles Posix "/app/public/images" "" exampleRoot)).
  - simpl. right. left. reflexivity.
  - reflexivity.
  - simpl. right. left. reflexivity.
Defined.

(** * The gallery page *)

(** ** Sets of selected images *)

Lemma has_In s x : Gallery.has s x = true <-> In x s.
Proof.
  unfold Gallery.has. rewrite existsb_exists. split.
  - intros (y & Hy & Heq). apply String.eqb_eq in Heq. now subst.
  - intros H. exists x. split; [assumption|apply String.eqb_refl].
Qed.

Lemma has_app s1 s2 x :
  Gallery.has (s1 ++ s2) x = Gallery.has s1 x || Gallery.has s2 x.
Proof. apply existsb_app. Qed.

Lemma has_add s x y :
  Gallery.has (Gallery.add s x) y = Gallery.has s y || String.eqb y x.
Proof.
  unfold Gallery.add. destruct (Gallery.has s x) eqn:Hx.
  - destruct (String.eqb_spec y x) as [->|_];
      [now rewrite Hx|now rewrite orb_false_r].
  - rewrite has_app. cbn. now rewrite orb_false_r.
Qed.

Lemma has_delete s x y :
  Gallery.has (Gallery.delete s x) y
  = Gallery.has s y && negb (String.eqb y x).
Proof.
  induction s as [|z s IH]; [reflexivity|].
  unfold Gallery.delete, Gallery.has in *. cbn [filter existsb].
  destruct (String.eqb_spec x z) as [Hxz|Hxz]; cbn [negb existsb];
    rewrite IH.
  - destruct (String.eqb_spec y x) as [Hyx|Hyx]; cbn [negb].
    + now rewrite !andb_false_r.
    + destruct (String.eqb_spec y z) as [Hyz|_]; [congruence|reflexivity].
  - destruct (String.eqb_spec y z) as [Hyz|_]; [|reflexivity].
    destruct (String.eqb_spec y x) as [Hyx|_]; [congruence|reflexivity].
Qed.

Lemma NoDup_add s x : NoDup s -> NoDup (Gallery.add s x).
Proof.
  intros H. unfold Gallery.add. destruct (Gallery.has s x) eqn:Hx;
    [assumption|].
  apply NoDup_app; [assumption|repeat constructor; intros []|].
  intros a Ha [<-|[]]. apply has_In in Ha. congruence.
Qed.

Lemma length_delete s x :
  NoDup s -> In x s -> S (List.length (Gallery.delete s x)) = List.length s.
Proof.
  induction 1 as [|z s Hz Hs IH]; intros Hin; [contradiction|].
  unfold Gallery.delete in *. cbn [filter].
  destruct (String.eqb_spec x z) as [->|Hxz]; cbn [negb List.length].
  - f_equal. clear IH Hin.
    induction s as [|w s IHs]; [reflexivity|].
    cbn [filter]. destruct (String.eqb_spec z w) as [->|_]; cbn [negb].
    + exfalso. apply Hz. now left.
    + cbn [List.length]. f_equal. apply IHs.
      * intros H. apply Hz. now right.
      * now inversion Hs.
  - f_equal. apply IH. destruct Hin as [->|Hin]; [congruence|assumption].
Qed.

Lemma fromArray_from acc xs y :
  Gallery.has (fold_left Gallery.add xs acc) y
  = Gallery.has acc y || existsb (String.eqb y) xs.
Proof.
  revert acc. induction xs as [|x xs IH]; intros acc; cbn [fold_left existsb].
  - now rewrite orb_false_r.
  - rewrite IH, has_add. now rewrite orb_assoc.
Qed.

Lemma NoDup_fromArray_from acc xs :
  NoDup acc -> NoDup (fold_left Gallery.add xs acc).
Proof.
  revert acc. induction xs as [|x xs IH]; intros acc H; [exact H|].
  cbn [fold_left]. now apply IH, NoDup_add.
Qed.

Lemma length_fromArray_from acc xs :
  List.length (fold_left Gallery.add xs acc)
  <= List.length acc + List.length xs.
Proof.
  revert acc. induction xs as [|x xs IH]; intros acc; cbn [fold_left].
  - cbn. lia.
  - specialize (IH (Gallery.add acc x)).
    assert (List.length (Gallery.add acc x) <= S (List.length acc)).
    { unfold Gallery.add. destruct (Gallery.has acc x); [lia|].
      rewrite length_app. cbn. lia. }
    cbn [List.length]. lia.
Qed.

Lemma has_add_same s x : Gallery.has (Gallery.add s x) x = true.
Proof. rewrite has_add, String.eqb_refl. apply orb_true_r. Qed.

Lemma delete_add s x :
  Gallery.has s x = false -> Gallery.delete (Gallery.add s x) x = s.
Proof.
  intros Hx. unfold Gallery.add. rewrite Hx. unfold Gallery.delete.
  rewrite filter_app. cbn [filter]. rewrite String.eqb_refl. cbn [negb].
  rewrite app_nil_r.
  apply forallb_filter_id. apply forallb_forall.
  intros y Hy. apply negb_true_iff, String.eqb_neq. intros Heq. subst y.
  apply has_In in Hy. congruence.
Qed.

Lemma toggleSelection_has st imageUrl x :
  Gallery.has
    (Gallery.selectedImages (Gallery.toggleSelection st imageUrl)) x
  = if String.eqb x imageUrl
    then negb (Gallery.has (Gallery.selectedImages st) imageUrl)
    else Gallery.has (Gallery.selectedImages st) x.
Proof.
  unfold Gallery.toggleSelection. cbn [Gallery.selectedImages Gallery.setSelectedImages].
  destruct (Gallery.has (Gallery.selectedImages st) imageUrl) eqn:Hu.
  - rewrite has_delete.
    destruct (String.eqb_spec x imageUrl) as [->|_]; cbn.
    + apply andb_false_r.
    + apply andb_true_r.
  - rewrite has_add.
    destruct (String.eqb_spec x imageUrl) as [->|_]; cbn.
    + apply orb_true_r.
    + apply orb_false_r.
Qed.

(** X12. Toggling an image flips whether it is selected and leaves every other
    image as it was; the set stays duplicate-free and its size goes down by
    one when the image was selected and up by one when it was not. *)
Theorem toggleSelection_flips_one st imageUrl :
  NoDup (Gallery.selectedImages st) ->
  let st' := Gallery.toggleSelection st imageUrl in
  (forall x,
      Gallery.has (Gallery.selectedImages st') x
      = if String.eqb x imageUrl
        then negb (Gallery.has (Gallery.selectedImages st) imageUrl)
        else Gallery.has (Gallery.selectedImages st) x)
  /\ NoDup (Gallery.selectedImages st')
  /\ Z.of_nat (List.length (Gallery.selectedImages st'))
     = (Z.of_nat (List.length (Gallery.selectedImages st))
        + if Gallery.has (Gallery.selectedImages st) imageUrl
          then -1 else 1)%Z.
Proof.
  intros Hnodup st'. split; [|split].
  - intros x. apply toggleSelection_has.
  - unfold st', Gallery.toggleSelection.
    cbn [Gallery.selectedImages Gallery.setSelectedImages].
    destruct (Gallery.has (Gallery.selectedImages st) imageUrl).
    + now apply NoDup_filter.
    + now apply NoDup_add.
  - unfold st', Gallery.toggleSelection.
    cbn [Gallery.selectedImages Gallery.setSelectedImages].
    destruct (Gallery.has (Gallery.selectedImages st) imageUrl) eqn:Hu.
    + apply has_In in Hu.
      pose proof (length_delete _ _ Hnodup Hu). lia.
    + unfold Gallery.add. rewrite Hu, length_app. cbn. lia.
Qed.

Lemma toggleSelection_flips_one_witness :
  Gallery.selectedImages
    (Gallery.toggleSelection
       (Gallery.setSelectedImages Gallery.initialState
          ["/images/a.png"; "/images/b/c.jpg"])
       "/images/a.png")
  = ["/images/b/c.jpg"]
  /\ Z.of_nat
       (List.length
          (Gallery.selectedImages
             (Gallery.toggleSelection
                (Gallery.setSelectedImages Gallery.initialState
                   ["/images/a.png"; "/images/b/c.jpg"])
                "/images/a.png")))
     = (2 + -1)%Z.
Proof.
  split; [reflexivity|].
  apply (toggleSelection_flips_one
           (Gallery.setSelectedImages Gallery.initialState
              ["/images/a.png"; "/images/b/c.jpg"])
           "/images/a.png").
  cbn. repeat constructor; cbn; intuition discriminate.
Defined.

(** X13. Toggling the same image twice selects exactly the images that were
    selected before, and gives back the very same state when the image was
    not selected at first. *)
Theorem toggleSelection_twice st imageUrl :
  (forall x,
      Gallery.has
        (Gallery.selectedImages
           (Gallery.toggleSelection (Gallery.toggleSelection st imageUrl)
              imageUrl)) x
      = Gallery.has (Gallery.selectedImages st) x)
  /\ (Gallery.has (Gallery.selectedImages st) imageUrl = false ->
      Gallery.toggleSelection (Gallery.toggleSelection st imageUrl) imageUrl
      = st).
Proof.
  split.
  - intros x.
    rewrite !toggleSelection_has, String.eqb_refl.
    destruct (String.eqb_spec x imageUrl) as [->|_]; [|reflexivity].
    apply negb_involutive.
  - intros Hu. destruct st as [imgs sel ld dir q il chosen mode].
    cbn [Gallery.selectedImages] in Hu.
    unfold Gallery.toggleSelection, Gallery.setSelectedImages.
    cbn [Gallery.selectedImages Gallery.images
         Gallery.selectedImage Gallery.loading Gallery.selectedDirectory
         Gallery.searchQuery Gallery.imageLoading Gallery.isSelectionMode].
    rewrite Hu, has_add_same, delete_add by assumption. reflexivity.
Qed.

Lemma toggleSelection_twice_witness :
  Gallery.toggleSelection
    (Gallery.toggleSelection Gallery.initialState "/images/a.png")
    "/images/a.png"
  = Gallery.initialState.
Proof.
  apply (proj2 (toggleSelection_twice Gallery.initialState "/images/a.png")).
  reflexivity.
Defined.

(** ** Selecting and downloading the shown images *)

Lemma existsb_url (imgs : list ImageData) u :
  existsb (String.eqb u) (map url imgs) = true
  <-> exists img, In img imgs /\ url img = u.
Proof.
  rewrite existsb_exists. split.
  - intros (x & Hx & Heq). apply String.eqb_eq in Heq. subst x.
    apply in_map_iff in Hx as (img & Himg & Hin). eauto.
  - intros (img & Hin & Himg). exists u. split; [|apply String.eqb_refl].
    apply in_map_iff. eauto.
Qed.

Lemma selectAll_has toLowerCase st u :
  Gallery.has
    (Gallery.selectedImages (Gallery.selectAll toLowerCase st)) u = true
  <-> exists img,
      In img (Gallery.filteredImages toLowerCase st) /\ url img = u.
Proof.
  unfold Gallery.selectAll, Gallery.fromArray.
  cbn [Gallery.selectedImages Gallery.setSelectedImages].
  rewrite fromArray_from. cbn [Gallery.has existsb orb].
  apply existsb_url.
Qed.

(** X14. After [selectAll] an image is selected exactly when it is the [url] of
    a shown image (what was selected outside the shown images is dropped);
    the set is duplicate-free and no larger than the shown list. *)
Theorem selectAll_selects_shown toLowerCase st :
  let st' := Gallery.selectAll toLowerCase st in
  (forall u,
      Gallery.has (Gallery.selectedImages st') u = true
      <-> exists img,
          In img (Gallery.filteredImages toLowerCase st) /\ url img = u)
  /\ NoDup (Gallery.selectedImages st')
  /\ List.length (Gallery.selectedImages st')
     <= List.length (Gallery.filteredImages toLowerCase st)
  /\ Gallery.filteredImages toLowerCase st'
     = Gallery.filteredImages toLowerCase st.
Proof.
  cbn zeta. split; [intros u; apply selectAll_has|].
  unfold Gallery.selectAll.
  cbn [Gallery.selectedImages Gallery.setSelectedImages].
  repeat split.
  - apply NoDup_fromArray_from. constructor.
  - unfold Gallery.fromArray.
    pose proof (length_fromArray_from []
                  (map url (Gallery.filteredImages toLowerCase st))) as H.
    rewrite length_map in H. exact H.
Qed.

Lemma combine_seq_snd {A} (xs : list A) start :
  map snd (combine (seq start (List.length xs)) xs) = xs.
Proof.
  revert start. induction xs as [|x xs IH]; intros start; [reflexivity|].
  cbn [List.length seq combine map snd]. now rewrite IH.
Qed.

Lemma combine_seq_nth {A} (xs : list A) start i index x :
  nth_error (combine (seq start (List.length xs)) xs) i = Some (index, x) ->
  index = start + i.
Proof.
  revert start i. induction xs as [|y xs IH]; intros start i.
  - destruct i; discriminate.
  - cbn [List.length seq combine]. destruct i as [|i]; cbn [nth_error].
    + intros H. injection H as <- _. lia.
    + intros H. apply IH in H. lia.
Qed.

Lemma handleBatchDownload_images toLowerCase st :
  map snd (Gallery.handleBatchDownload toLowerCase st)
  = filter (fun img => Gallery.has (Gallery.selectedImages st) (url img))
           (Gallery.filteredImages toLowerCase st).
Proof.
  unfold Gallery.handleBatchDownload.
  destruct (filter (fun img => Gallery.has (Gallery.selectedImages st) (url img))
                   (Gallery.filteredImages toLowerCase st))
    as [|first [|second rest]] eqn:Hsel; try reflexivity.
  rewrite map_map. cbn [snd].
  apply (combine_seq_snd (first :: second :: rest) 0).
Qed.

(** X15. The batch download fetches the shown images whose [url] is selected,
    in the order shown, and nothing else; the download at position [i]
    starts after [500 * i] milliseconds. *)
Theorem batch_download_plan toLowerCase st :
  map snd (Gallery.handleBatchDownload toLowerCase st)
  = filter (fun img => Gallery.has (Gallery.selectedImages st) (url img))
           (Gallery.filteredImages toLowerCase st)
  /\ forall i delay image,
      nth_error (Gallery.handleBatchDownload toLowerCase st) i
      = Some (delay, image) ->
      delay = (500 * Z.of_nat i)%Z.
Proof.
  split; [apply handleBatchDownload_images|].
  unfold Gallery.handleBatchDownload.
  destruct (filter (fun img => Gallery.has (Gallery.selectedImages st) (url img))
                   (Gallery.filteredImages toLowerCase st))
    as [|first [|second rest]] eqn:Hsel.
  - intros [|i] delay image H; discriminate.
  - intros [|[|i]] delay image H; try discriminate.
    injection H as <- _. reflexivity.
  - intros i delay image H.
    rewrite nth_error_map in H.
    destruct (nth_error
                (combine (seq 0 (List.length (first :: second :: rest)))
                   (first :: second :: rest)) i)
      as [[index x]|] eqn:Hnth; [|discriminate].
    apply combine_seq_nth in Hnth. cbn [option_map fst snd] in H.
    injection H as <- _. subst index. cbn [Nat.add].
    destruct (0 <? Z.of_nat i)%Z eqn:Hpos; [reflexivity|].
    apply Z.ltb_ge in Hpos. lia.
Qed.

(** X16. Selecting all and then downloading fetches every shown image once per
    place in the shown list. *)
Theorem select_all_then_download toLowerCase st :
  map snd
    (Gallery.handleBatchDownload toLowerCase
       (Gallery.selectAll toLowerCase st))
  = Gallery.filteredImages toLowerCase st.
Proof.
  rewrite handleBatchDownload_images.
  change (Gallery.filteredImages toLowerCase
            (Gallery.selectAll toLowerCase st))
    with (Gallery.filteredImages toLowerCase st).
  apply forallb_filter_id, forallb_forall.
  intros img Himg. apply selectAll_has. eauto.
Qed.

(** ** Moving through the shown images *)

Lemma findIndex_range sel imgs :
  (-1 <= Gallery.findIndex sel imgs < Z.of_nat (List.length imgs))%Z.
Proof.
  induction imgs as [|img imgs IH]; cbn [Gallery.findIndex List.length].
  - lia.
  - destruct (String.eqb (url img) sel); [lia|].
    destruct (Gallery.findIndex sel imgs <? 0)%Z eqn:E; [lia|].
    apply Z.ltb_ge in E. lia.
Qed.

Lemma findIndex_found sel imgs :
  (0 <= Gallery.findIndex sel imgs)%Z ->
  exists img,
    nth_error imgs (Z.to_nat (Gallery.findIndex sel imgs)) = Some img
    /\ url img = sel.
Proof.
  induction imgs as [|img imgs IH]; cbn [Gallery.findIndex]; [lia|].
  destruct (String.eqb_spec (url img) sel) as [Heq|_].
  - intros _. exists img. split; [reflexivity|assumption].
  - destruct (Gallery.findIndex sel imgs <? 0)%Z eqn:E; [lia|].
    apply Z.ltb_ge in E. intros _.
    destruct (IH E) as (found & Hnth & Hurl).
    exists found. split; [|assumption].
    replace (Z.to_nat (Gallery.findIndex sel imgs + 1))
      with (S (Z.to_nat (Gallery.findIndex sel imgs))) by lia.
    exact Hnth.
Qed.

Lemma findIndex_absent sel imgs :
  (forall img, In img imgs -> url img <> sel) ->
  Gallery.findIndex sel imgs = (-1)%Z.
Proof.
  induction imgs as [|img imgs IH]; intros H; [reflexivity|].
  cbn [Gallery.findIndex].
  destruct (String.eqb_spec (url img) sel) as [Heq|_].
  - exfalso. apply (H img); [now left|assumption].
  - rewrite IH by (intros x Hx; apply H; now right). reflexivity.
Qed.

Lemma findIndex_nth imgs :
  NoDup (map url imgs) ->
  forall j img,
    nth_error imgs j = Some img ->
    Gallery.findIndex (url img) imgs = Z.of_nat j.
Proof.
  induction imgs as [|first imgs IH]; intros Hnodup j img Hnth.
  - destruct j; discriminate.
  - cbn [map] in Hnodup. apply NoDup_cons_iff in Hnodup as [Hfresh Hnodup].
    cbn [Gallery.findIndex]. destruct j as [|j]; cbn [nth_error] in Hnth.
    + injection Hnth as ->. now rewrite String.eqb_refl.
    + destruct (String.eqb_spec (url first) (url img)) as [Heq|_].
      * exfalso. apply Hfresh. rewrite Heq. apply in_map.
        eapply nth_error_In; eassumption.
      * rewrite (IH Hnodup j img Hnth).
        destruct (Z.of_nat j <? 0)%Z eqn:E; [apply Z.ltb_lt in E; lia|lia].
Qed.

Lemma at_index_in_range imgs i :
  (0 <= i < Z.of_nat (List.length imgs))%Z ->
  exists img,
    Gallery.at_index imgs i = Some img
    /\ nth_error imgs (Z.to_nat i) = Some img
    /\ In img imgs.
Proof.
  intros Hi. unfold Gallery.at_index.
  destruct (i <? 0)%Z eqn:E; [apply Z.ltb_lt in E; lia|].
  destruct (nth_error imgs (Z.to_nat i)) as [img|] eqn:Hnth.
  - exists img. repeat split. eapply nth_error_In; eassumption.
  - apply nth_error_None in Hnth. lia.
Qed.

Lemma currentImageIndex_range toLowerCase st :
  (-1 <= Gallery.currentImageIndex toLowerCase st
   < Z.of_nat (List.length (Gallery.filteredImages toLowerCase st)))%Z
  \/ (Gallery.currentImageIndex toLowerCase st = (-1)%Z
      /\ Gallery.filteredImages toLowerCase st = []).
Proof.
  unfold Gallery.currentImageIndex.
  destruct (Gallery.selectedImage st) as [sel|].
  - left. apply findIndex_range.
  - destruct (Gallery.filteredImages toLowerCase st) eqn:E;
      [now right|left; cbn [List.length]; lia].
Qed.

(** What [goToNextImage] and [goToPrevImage] do, by position. *)
Lemma goToNextImage_step toLowerCase st :
  (Gallery.currentImageIndex toLowerCase st
   < Z.of_nat (List.length (Gallery.filteredImages toLowerCase st)) - 1)%Z ->
  exists img,
    Gallery.at_index (Gallery.filteredImages toLowerCase st)
      (Gallery.currentImageIndex toLowerCase st + 1) = Some img
    /\ In img (Gallery.filteredImages toLowerCase st)
    /\ Gallery.goToNextImage toLowerCase st
       = Gallery.setImageLoading (Gallery.setSelectedImage st (Some img)) true.
Proof.
  intros Hlt. unfold Gallery.goToNextImage.
  apply Z.ltb_lt in Hlt. rewrite Hlt. apply Z.ltb_lt in Hlt.
  destruct (at_index_in_range (Gallery.filteredImages toLowerCase st)
              (Gallery.currentImageIndex toLowerCase st + 1))
    as (img & Hat & _ & Hin).
  - destruct (currentImageIndex_range toLowerCase st) as [H|[H1 H2]];
      [lia|rewrite H2 in Hlt; cbn in Hlt; lia].
  - exists img. rewrite Hat. auto.
Qed.

Lemma goToNextImage_end toLowerCase st :
  (Z.of_nat (List.length (Gallery.filteredImages toLowerCase st)) - 1
   <= Gallery.currentImageIndex toLowerCase st)%Z ->
  Gallery.goToNextImage toLowerCase st = st.
Proof.
  intros H. unfold Gallery.goToNextImage.
  apply Z.ltb_ge in H. now rewrite H.
Qed.

Lemma goToPrevImage_step toLowerCase st :
  (0 < Gallery.currentImageIndex toLowerCase st)%Z ->
  exists img,
    Gallery.at_index (Gallery.filteredImages toLowerCase st)
      (Gallery.currentImageIndex toLowerCase st - 1) = Some img
    /\ In img (Gallery.filteredImages toLowerCase st)
    /\ Gallery.goToPrevImage toLowerCase st
       = Gallery.setImageLoading (Gallery.setSelectedImage st (Some img)) true.
Proof.
  intros Hlt. unfold Gallery.goToPrevImage.
  apply Z.ltb_lt in Hlt. rewrite Hlt. apply Z.ltb_lt in Hlt.
  destruct (at_index_in_range (Gallery.filteredImages toLowerCase st)
              (Gallery.currentImageIndex toLowerCase st - 1))
    as (img & Hat & _ & Hin).
  - destruct (currentImageIndex_range toLowerCase st) as [H|[H1 H2]]; lia.
  - exists img. rewrite Hat. auto.
Qed.

Lemma goToPrevImage_start toLowerCase st :
  (Gallery.currentImageIndex toLowerCase st <= 0)%Z ->
  Gallery.goToPrevImage toLowerCase st = st.
Proof.
  intros H. unfold Gallery.goToPrevImage.
  apply Z.ltb_ge in H. now rewrite H.
Qed.

(** X17. Moving forward or backward from an open image leaves an image open:
    the same one, or one of the shown images; the shown list itself does
    not change. *)
Theorem navigation_stays_in_shown_list toLowerCase st sel :
  Gallery.selectedImage st = Some sel ->
  (exists img,
      Gallery.selectedImage (Gallery.goToNextImage toLowerCase st) = Some img
      /\ (img = sel \/ In img (Gallery.filteredImages toLowerCase st)))
  /\ (exists img,
         Gallery.selectedImage (Gallery.goToPrevImage toLowerCase st)
         = Some img
         /\ (img = sel \/ In img (Gallery.filteredImages toLowerCase st)))
  /\ Gallery.filteredImages toLowerCase (Gallery.goToNextImage toLowerCase st)
     = Gallery.filteredImages toLowerCase st
  /\ Gallery.filteredImages toLowerCase (Gallery.goToPrevImage toLowerCase st)
     = Gallery.filteredImages toLowerCase st.
Proof.
  intros Hsel.
  pose proof (Z.lt_ge_cases
                (Gallery.currentImageIndex toLowerCase st)
                (Z.of_nat (List.length (Gallery.filteredImages toLowerCase st))
                 - 1)) as Hnext.
  pose proof (Z.lt_ge_cases 0 (Gallery.currentImageIndex toLowerCase st))
    as Hprev.
  split; [|split; [|split]].
  - destruct Hnext as [H|H].
    + destruct (goToNextImage_step toLowerCase st H) as (img & _ & Hin & ->).
      exists img. split; [reflexivity|now right].
    + rewrite goToNextImage_end by assumption.
      exists sel. split; [assumption|now left].
  - destruct Hprev as [H|H].
    + destruct (goToPrevImage_step toLowerCase st H) as (img & _ & Hin & ->).
      exists img. split; [reflexivity|now right].
    + rewrite goToPrevImage_start by assumption.
      exists sel. split; [assumption|now left].
  - destruct Hnext as [H|H].
    + destruct (goToNextImage_step toLowerCase st H) as (img & _ & _ & ->).
      reflexivity.
    + now rewrite goToNextImage_end.
  - destruct Hprev as [H|H].
    + destruct (goToPrevImage_step toLowerCase st H) as (img & _ & _ & ->).
      reflexivity.
    + now rewrite goToPrevImage_start.
Qed.

Lemma navigation_stays_in_shown_list_witness :
  exists img,
    Gallery.selectedImage
      (Gallery.goToNextImage Str.toLowerCase
         (Gallery.openModal
            (Gallery.setImages Gallery.initialState
               (getImageFiles Posix "/app/public/images" "" deepRoot))
            (describe Posix "" "top.png" 1%N)))
    = Some img
    /\ (img = describe Posix "" "top.png" 1%N
        \/ In img
             (Gallery.filteredImages Str.toLowerCase
                (Gallery.openModal
                   (Gallery.setImages Gallery.initialState
                      (getImageFiles Posix "/app/public/images" "" deepRoot))
                   (describe Posix "" "top.png" 1%N)))).
Proof.
  apply (navigation_stays_in_shown_list Str.toLowerCase
           (Gallery.openModal
              (Gallery.setImages Gallery.initialState
                 (getImageFiles Posix "/app/public/images" "" deepRoot))
              (describe Posix "" "top.png" 1%N))
           (describe Posix "" "top.png" 1%N)).
  reflexivity.
Defined.

Lemma at_index_Some imgs i img :
  Gallery.at_index imgs i = Some img ->
  (0 <= i)%Z /\ nth_error imgs (Z.to_nat i) = Some img.
Proof.
  unfold Gallery.at_index. destruct (i <? 0)%Z eqn:E; [discriminate|].
  apply Z.ltb_ge in E. auto.
Qed.

Lemma currentImageIndex_jump toLowerCase st j img :
  NoDup (map url (Gallery.filteredImages toLowerCase st)) ->
  Gallery.at_index (Gallery.filteredImages toLowerCase st) j = Some img ->
  Gallery.currentImageIndex toLowerCase
    (Gallery.setImageLoading (Gallery.setSelectedImage st (Some img)) true)
  = j.
Proof.
  intros Hnodup Hat. apply at_index_Some in Hat as [Hj Hnth].
  unfold Gallery.currentImageIndex.
  cbn [Gallery.selectedImage Gallery.setImageLoading Gallery.setSelectedImage].
  change (Gallery.filteredImages toLowerCase
            (Gallery.setImageLoading
               (Gallery.setSelectedImage st (Some img)) true))
    with (Gallery.filteredImages toLowerCase st).
  rewrite (findIndex_nth _ Hnodup _ _ Hnth). lia.
Qed.

(** X18. Where the shown images have distinct [url]s, going to the next image
    and back, or to the previous image and forth, returns to the position
    the viewer was at, and to the image shown at that position. *)
Theorem navigation_round_trip toLowerCase st :
  NoDup (map url (Gallery.filteredImages toLowerCase st)) ->
  let i := Gallery.currentImageIndex toLowerCase st in
  let shown := Gallery.filteredImages toLowerCase st in
  ((0 <= i < Z.of_nat (List.length shown) - 1)%Z ->
   let st' := Gallery.goToPrevImage toLowerCase
                (Gallery.goToNextImage toLowerCase st) in
   Gallery.currentImageIndex toLowerCase st' = i
   /\ Gallery.selectedImage st' = Gallery.at_index shown i)
  /\ ((0 < i)%Z ->
      let st' := Gallery.goToNextImage toLowerCase
                   (Gallery.goToPrevImage toLowerCase st) in
      Gallery.currentImageIndex toLowerCase st' = i
      /\ Gallery.selectedImage st' = Gallery.at_index shown i).
Proof.
  intros Hnodup. cbn zeta. split.
  - intros [Hlow Hhigh].
    destruct (goToNextImage_step toLowerCase st Hhigh)
      as (img1 & Hat1 & _ & ->).
    pose proof (currentImageIndex_jump toLowerCase st _ _ Hnodup Hat1)
      as Hcur1.
    set (st1 := Gallery.setImageLoading
                  (Gallery.setSelectedImage st (Some img1)) true) in *.
    assert (Hshown1 : Gallery.filteredImages toLowerCase st1
                      = Gallery.filteredImages toLowerCase st)
      by reflexivity.
    destruct (goToPrevImage_step toLowerCase st1) as (img0 & Hat0 & _ & ->).
    { rewrite Hcur1. lia. }
    rewrite Hcur1, Hshown1 in Hat0.
    replace (Gallery.currentImageIndex toLowerCase st + 1 - 1)%Z
      with (Gallery.currentImageIndex toLowerCase st) in Hat0 by lia.
    split.
    + apply currentImageIndex_jump; [rewrite Hshown1; assumption|].
      now rewrite Hshown1.
    + now rewrite Hat0.
  - intros Hlow.
    destruct (goToPrevImage_step toLowerCase st Hlow)
      as (img1 & Hat1 & _ & ->).
    pose proof (currentImageIndex_jump toLowerCase st _ _ Hnodup Hat1)
      as Hcur1.
    set (st1 := Gallery.setImageLoading
                  (Gallery.setSelectedImage st (Some img1)) true) in *.
    assert (Hshown1 : Gallery.filteredImages toLowerCase st1
                      = Gallery.filteredImages toLowerCase st)
      by reflexivity.
    destruct (goToNextImage_step toLowerCase st1) as (img0 & Hat0 & _ & ->).
    { rewrite Hcur1, Hshown1.
      destruct (currentImageIndex_range toLowerCase st) as [H|[H _]]; lia. }
    rewrite Hcur1, Hshown1 in Hat0.
    replace (Gallery.currentImageIndex toLowerCase st - 1 + 1)%Z
      with (Gallery.currentImageIndex toLowerCase st) in Hat0 by lia.
    split.
    + apply currentImageIndex_jump; [rewrite Hshown1; assumption|].
      now rewrite Hshown1.
    + now rewrite Hat0.
Qed.

(** Each move leaves the state alone or opens one image. *)
Lemma navigation_moves toLowerCase st sel :
  Gallery.selectedImage st = Some sel ->
  (Gallery.goToNextImage toLowerCase st = st
   \/ exists img,
       Gallery.goToNextImage toLowerCase st
       = Gallery.setImageLoading (Gallery.setSelectedImage st (Some img)) true)
  /\ (Gallery.goToPrevImage toLowerCase st = st
      \/ exists img,
          Gallery.goToPrevImage toLowerCase st
          = Gallery.setImageLoading
              (Gallery.setSelectedImage st (Some img)) true).
Proof.
  intros Hsel. split.
  - destruct (Z.lt_ge_cases
                (Gallery.currentImageIndex toLowerCase st)
                (Z.of_nat
                   (List.length (Gallery.filteredImages toLowerCase st)) - 1))
      as [H|H].
    + destruct (goToNextImage_step toLowerCase st H) as (img & _ & _ & ->).
      right. now exists img.
    + left. now apply goToNextImage_end.
  - destruct (Z.lt_ge_cases 0 (Gallery.currentImageIndex toLowerCase st))
      as [H|H].
    + destruct (goToPrevImage_step toLowerCase st H) as (img & _ & _ & ->).
      right. now exists img.
    + left. now apply goToPrevImage_start.
Qed.

(** X19. When the open image is not among the shown images (the filter changed
    under it), going back does nothing and going forward opens the first
    shown image, if there is one. *)
Theorem hidden_image_next_opens_first toLowerCase st sel :
  Gallery.selectedImage st = Some sel ->
  (forall img,
      In img (Gallery.filteredImages toLowerCase st) -> url img <> url sel) ->
  Gallery.goToPrevImage toLowerCase st = st
  /\ Gallery.selectedImage (Gallery.goToNextImage toLowerCase st)
     = match Gallery.filteredImages toLowerCase st with
       | [] => Some sel
       | first :: _ => Some first
       end.
Proof.
  intros Hsel Habsent.
  assert (Hcur : Gallery.currentImageIndex toLowerCase st = (-1)%Z).
  { unfold Gallery.currentImageIndex. rewrite Hsel.
    now apply findIndex_absent. }
  split.
  - apply goToPrevImage_start. lia.
  - unfold Gallery.goToNextImage. rewrite Hcur.
    destruct (Gallery.filteredImages toLowerCase st) as [|first rest].
    + cbn. exact Hsel.
    + replace (-1 <? Z.of_nat (List.length (first :: rest)) - 1)%Z with true
        by (symmetry; apply Z.ltb_lt; cbn [List.length]; lia).
      reflexivity.
Qed.

(** X20. A key pressed changes nothing but the open image and its loading
    mark: the images, the filters and the selection stay; with no image
    open every key is ignored; [Escape] closes the viewer, and any other
    key leaves it open. *)
Theorem keyboard_only_moves_the_viewer toLowerCase st key :
  let st' := Gallery.handleKeyDown toLowerCase st key in
  Gallery.images st' = Gallery.images st
  /\ Gallery.selectedDirectory st' = Gallery.selectedDirectory st
  /\ Gallery.searchQuery st' = Gallery.searchQuery st
  /\ Gallery.selectedImages st' = Gallery.selectedImages st
  /\ Gallery.isSelectionMode st' = Gallery.isSelectionMode st
  /\ (Gallery.selectedImage st = None -> st' = st)
  /\ (key = "Escape"%string -> Gallery.selectedImage st' = None)
  /\ (key <> "Escape"%string -> Gallery.selectedImage st <> None ->
      Gallery.selectedImage st' <> None).
Proof.
  cbn zeta. unfold Gallery.handleKeyDown.
  destruct (Gallery.selectedImage st) as [sel|] eqn:Hsel.
  2: { repeat split; try assumption; congruence. }
  destruct (String.eqb_spec key "Escape") as [->|Hesc].
  { repeat split; try discriminate; congruence. }
  destruct (navigation_moves toLowerCase st sel Hsel)
    as (Hnext & Hprev).
  destruct (String.eqb key "ArrowLeft");
    [|destruct (String.eqb key "ArrowRight")].
  - destruct Hprev as [->|(img & ->)];
      repeat split; try congruence; try discriminate.
  - destruct Hnext as [->|(img & ->)];
      repeat split; try congruence; try discriminate.
  - repeat split; try congruence.
Qed.

(** ** The directories of the side bar *)

Lemma insertSorted_In before x y sorted :
  In x (Gallery.insertSorted before y sorted) <-> x = y \/ In x sorted.
Proof.
  induction sorted as [|z sorted IH]; cbn [Gallery.insertSorted].
  - cbn. intuition congruence.
  - destruct (before y z); cbn [In]; [intuition congruence|].
    rewrite IH. intuition congruence.
Qed.

Lemma sortStrings_In before x xs :
  In x (Gallery.sortStrings before xs) <-> In x xs.
Proof.
  induction xs as [|y xs IH]; [reflexivity|].
  cbn [Gallery.sortStrings In]. rewrite insertSorted_In, IH.
  intuition congruence.
Qed.

Lemma NoDup_insertSorted before x sorted :
  ~ In x sorted -> NoDup sorted ->
  NoDup (Gallery.insertSorted before x sorted).
Proof.
  induction sorted as [|z sorted IH]; intros Hx Hnodup;
    cbn [Gallery.insertSorted].
  - repeat constructor. intros [].
  - destruct (before x z); [now constructor|].
    apply NoDup_cons_iff in Hnodup as [Hz Hnodup].
    constructor.
    + rewrite insertSorted_In. intros [->|H]; [|contradiction].
      apply Hx. now left.
    + apply IH; [|assumption]. intros H. apply Hx. now right.
Qed.

Lemma NoDup_sortStrings before xs :
  NoDup xs -> NoDup (Gallery.sortStrings before xs).
Proof.
  induction 1 as [|x xs Hx Hnodup IH]; [constructor|].
  cbn [Gallery.sortStrings]. apply NoDup_insertSorted; [|assumption].
  now rewrite sortStrings_In.
Qed.

Lemma Sorted_insertSorted (before : string -> string -> bool) x sorted :
  (forall a b, before a b = true \/ before b a = true) ->
  Sorted (fun a b => before a b = true) sorted ->
  Sorted (fun a b => before a b = true)
         (Gallery.insertSorted before x sorted).
Proof.
  intros Htotal. induction 1 as [|z sorted Hsorted IH Hhd];
    cbn [Gallery.insertSorted].
  - repeat constructor.
  - destruct (before x z) eqn:Hxz.
    + constructor; [now constructor|now constructor].
    + constructor; [exact IH|].
      assert (Hzx : before z x = true)
        by (destruct (Htotal x z); congruence).
      destruct Hhd as [|w rest Hzw]; cbn [Gallery.insertSorted].
      * now constructor.
      * destruct (before x w); now constructor.
Qed.

(** X21. The side bar lists exactly the [directory] values of the images, each
    once, and in the order of the sort (for any total order). *)
Theorem sidebar_directories before st :
  (forall d,
      In d (Gallery.directories before st)
      <-> exists img, In img (Gallery.images st) /\ directory img = d)
  /\ NoDup (Gallery.directories before st)
  /\ ((forall a b, before a b = true \/ before b a = true) ->
      Sorted (fun a b => before a b = true)
             (Gallery.directories before st)).
Proof.
  unfold Gallery.directories, Gallery.fromArray. repeat split.
  - rewrite sortStrings_In. intros H. apply has_In in H.
    rewrite fromArray_from in H. cbn [Gallery.has existsb orb] in H.
    apply existsb_exists in H as (x & Hx & Heq).
    apply String.eqb_eq in Heq. subst x.
    apply in_map_iff in Hx as (img & Himg & Hin). eauto.
  - intros (img & Hin & Hd). rewrite sortStrings_In. apply has_In.
    rewrite fromArray_from. cbn [Gallery.has existsb orb].
    apply existsb_exists. exists d. split; [|apply String.eqb_refl].
    apply in_map_iff. eauto.
  - apply NoDup_sortStrings, NoDup_fromArray_from. constructor.
  - intros Htotal.
    induction (fold_left Gallery.add (map directory (Gallery.images st)) [])
      as [|x xs IH]; [constructor|].
    cbn [Gallery.sortStrings]. now apply Sorted_insertSorted.
Qed.

Lemma sidebar_directories_witness :
  Gallery.directories String.leb shownExample = ["x"; "x/y/z"; rootLabel]
  /\ Sorted (fun a b => String.leb a b = true)
            (Gallery.directories String.leb shownExample).
Proof.
  split; [reflexivity|].
  apply (proj2 (proj2 (sidebar_directories String.leb shownExample))).
  apply String.leb_total.
Defined.

(** ** The counts of the side bar *)

Section counts.

Variable inherited : string -> bool.

Lemma find_map_setCount (counts : list (string * Gallery.CountValue)) k' v k :
  find (fun entry => String.eqb (fst entry) k)
       (map (fun entry => if String.eqb (fst entry) k' then (k', v) else entry)
            counts)
  = if String.eqb k' k
    then if existsb (fun entry => String.eqb (fst entry) k') counts
         then Some (k', v) else None
    else find (fun entry => String.eqb (fst entry) k) counts.
Proof.
  induction counts as [|[key value] counts IH].
  - cbn. now destruct (String.eqb k' k).
  - cbn [map find existsb fst].
    destruct (String.eqb_spec key k') as [Hkey|Hkey]; cbn [fst orb].
    + subst key. destruct (String.eqb_spec k' k) as [Hk|Hk]; [reflexivity|].
      rewrite IH. destruct (String.eqb_spec k' k); [contradiction|].
      reflexivity.
    + destruct (String.eqb_spec key k) as [Hk|Hk].
      * subst key. destruct (String.eqb_spec k' k) as [Heq|_];
          [congruence|reflexivity].
      * exact IH.
Qed.

Lemma find_app_setCount (counts : list (string * Gallery.CountValue)) k' v k :
  existsb (fun entry => String.eqb (fst entry) k') counts = false ->
  find (fun entry => String.eqb (fst entry) k) (counts ++ [(k', v)])
  = if String.eqb k' k then Some (k', v)
    else find (fun entry => String.eqb (fst entry) k) counts.
Proof.
  induction counts as [|[key value] counts IH]; intros Hfresh.
  - cbn. now destruct (String.eqb k' k).
  - cbn [existsb fst] in Hfresh.
    apply orb_false_iff in Hfresh as [Hkey Hfresh].
    cbn [app find fst]. rewrite (IH Hfresh).
    destruct (String.eqb_spec key k) as [Hk|Hk]; [|reflexivity].
    subst key. now rewrite String.eqb_sym, Hkey.
Qed.

Lemma getCount_setCount counts k' v k :
  Gallery.getCount inherited (Gallery.setCount counts k' v) k
  = if String.eqb k' k then Some v
    else Gallery.getCount inherited counts k.
Proof.
  unfold Gallery.getCount, Gallery.setCount.
  destruct (existsb (fun entry => String.eqb (fst entry) k') counts) eqn:E.
  - rewrite find_map_setCount, E. now destruct (String.eqb k' k).
  - rewrite find_app_setCount by assumption.
    now destruct (String.eqb k' k).
Qed.

Lemma getCount_fold imgs :
  forall counts k,
    Gallery.getCount inherited
      (fold_left
         (fun counts img =>
            Gallery.setCount counts (directory img)
              (Gallery.plusOne
                 (Gallery.getCount inherited counts (directory img))))
         imgs counts) k
    = Nat.iter
        (List.length (filter (fun img => String.eqb (directory img) k) imgs))
        (fun v => Some (Gallery.plusOne v))
        (Gallery.getCount inherited counts k).
Proof.
  induction imgs as [|img imgs IH]; intros counts k; [reflexivity|].
  cbn [fold_left filter]. rewrite IH, getCount_setCount.
  destruct (String.eqb_spec (directory img) k) as [->|_]; [|reflexivity].
  cbn [List.length]. now rewrite Nat.iter_succ_r.
Qed.

Lemma iter_plusOne_from_none n :
  Nat.iter (S n) (fun v => Some (Gallery.plusOne v)) None
  = Some (Gallery.Counted (N.of_nat (S n))).
Proof.
  induction n as [|n IH]; [reflexivity|].
  rewrite Nat.iter_succ, IH. cbn [Gallery.plusOne]. do 2 f_equal. lia.
Qed.

Lemma iter_plusOne_from_other n :
  Nat.iter n (fun v => Some (Gallery.plusOne v)) (Some Gallery.Other)
  = Some Gallery.Other.
Proof.
  induction n as [|n IH]; [reflexivity|].
  rewrite Nat.iter_succ, IH. reflexivity.
Qed.

End counts.

(** X22. For a directory whose name is no property of [Object.prototype], the
    count of the side bar is the number of images with that [directory]
    (and there is no count when there is none); it is the number of images
    shown when that directory is selected and the search is empty.  For a
    name that is a property of [Object.prototype] what is read is not a
    number. *)
Theorem sidebar_counts inherited st k :
  let n := List.length
             (filter (fun img => String.eqb (directory img) k)
                     (Gallery.images st)) in
  (inherited k = false ->
   Gallery.getCount inherited (Gallery.directoryImageCounts inherited st) k
   = match n with
     | 0 => None
     | S _ => Some (Gallery.Counted (N.of_nat n))
     end)
  /\ (inherited k = true ->
      Gallery.getCount inherited (Gallery.directoryImageCounts inherited st) k
      = Some Gallery.Other)
  /\ (forall toLowerCase,
         Str.is_empty k = false ->
         n = List.length
               (Gallery.filteredImages toLowerCase
                  (Gallery.setSearchQuery
                     (Gallery.setSelectedDirectory st k) ""))).
Proof.
  cbn zeta. unfold Gallery.directoryImageCounts.
  rewrite getCount_fold. unfold Gallery.getCount. cbn [find].
  repeat split.
  - intros ->.
    destruct (List.length
                (filter (fun img => String.eqb (directory img) k)
                        (Gallery.images st))) as [|n]; [reflexivity|].
    apply iter_plusOne_from_none.
  - intros ->. apply iter_plusOne_from_other.
  - intros toLowerCase Hk. unfold Gallery.filteredImages.
    cbn [Gallery.images Gallery.selectedDirectory Gallery.searchQuery
         Gallery.setSearchQuery Gallery.setSelectedDirectory].
    f_equal. apply filter_ext. intros img. unfold Gallery.matches.
    rewrite Hk. cbn [Str.is_empty]. now rewrite andb_true_r.
Qed.

Lemma sidebar_counts_witness :
  Gallery.getCount objectPrototypeKeys
    (Gallery.directoryImageCounts objectPrototypeKeys shownExample) "x"
  = Some (Gallery.Counted 1)
  /\ Gallery.getCount objectPrototypeKeys
       (Gallery.directoryImageCounts objectPrototypeKeys
          (Gallery.setImages Gallery.initialState
             [describe Posix "constructor" "a.png" 1%N]))
       "constructor"
     = Some Gallery.Other.
Proof.
  split.
  - apply (proj1 (sidebar_counts objectPrototypeKeys shownExample "x")).
    reflexivity.
  - apply (proj1 (proj2 (sidebar_counts objectPrototypeKeys
                           (Gallery.setImages Gallery.initialState
                              [describe Posix "constructor" "a.png" 1%N])
                           "constructor"))).
    reflexivity.
Defined.

(** ** Loading the images from the endpoint *)

(** X23. After the page has loaded its images from the endpoint, the loading
    mark is off and the page shows exactly the inventory the cache now
    holds; unless the handler answered with its error, in which case the
    page keeps the images it had and the cache is as before.  The filters
    and the selection are not touched. *)
Theorem page_shows_cache_content p env c st :
  let st' := fst (loadImages p env c st) in
  let c' := snd (loadImages p env c st) in
  Gallery.loading st' = false
  /\ Gallery.selectedDirectory st' = Gallery.selectedDirectory st
  /\ Gallery.searchQuery st' = Gallery.searchQuery st
  /\ Gallery.selectedImages st' = Gallery.selectedImages st
  /\ (cachedImages c' = Some (Gallery.images st')
      \/ (exists error, cwd env = Throws error)
         /\ Gallery.images st' = Gallery.images st
         /\ c' = c).
Proof.
  cbn zeta. unfold loadImages.
  destruct (handler_cases p env c "GET")
    as [(Hneq & _)|[(_ & inventory & Hfresh & ->)
                   |[(_ & _ & error & Hcwd & ->)
                    |(_ & _ & workdir & _ & ->)]]];
    [congruence| | |]; cbn; repeat split.
  - left. now apply freshCache_Some in Hfresh.
  - right. eauto.
  - now left.
Qed.

Lemma batch_download_plan_witness :
  Gallery.handleBatchDownload Str.toLowerCase
    (Gallery.selectAll Str.toLowerCase shownExample)
  = [(0%Z, describe Posix "" "top.png" 1%N);
     (500%Z, describe Posix "x" "mid.GIF" 2%N);
     (1000%Z, describe Posix "x/y/z" "deep.svg" 3%N)]
  /\ 1000%Z = (500 * Z.of_nat 2)%Z.
Proof.
  split; [reflexivity|].
  apply (proj2 (batch_download_plan Str.toLowerCase
                  (Gallery.selectAll Str.toLowerCase shownExample))
           2 1000%Z (describe Posix "x/y/z" "deep.svg" 3%N)).
  reflexivity.
Defined.

Lemma navigation_round_trip_witness :
  Gallery.selectedImage
    (Gallery.goToPrevImage Str.toLowerCase
       (Gallery.goToNextImage Str.toLowerCase
          (Gallery.openModal shownExample
             (describe Posix "x" "mid.GIF" 2%N))))
  = Gallery.at_index
      (Gallery.filteredImages Str.toLowerCase
         (Gallery.openModal shownExample (describe Posix "x" "mid.GIF" 2%N)))
      (Gallery.currentImageIndex Str.toLowerCase
         (Gallery.openModal shownExample (describe Posix "x" "mid.GIF" 2%N))).
Proof.
  destruct (navigation_round_trip Str.toLowerCase
              (Gallery.openModal shownExample
                 (describe Posix "x" "mid.GIF" 2%N))) as [Hforth _].
  - vm_compute. repeat constructor; cbn; intuition discriminate.
  - destruct Hforth as [_ Hsel]; [vm_compute; split; congruence|exact Hsel].
Defined.

(** The viewer shows [top.png]; the search then narrows the list to the
    names holding [gif]. *)
Lemma hidden_image_next_opens_first_witness :
  Gallery.selectedImage
    (Gallery.goToNextImage Str.toLowerCase
       (Gallery.setSearchQuery
          (Gallery.openModal shownExample (describe Posix "" "top.png" 1%N))
          "gif"))
  = Some (describe Posix "x" "mid.GIF" 2%N).
Proof.
  destruct (hidden_image_next_opens_first Str.toLowerCase
              (Gallery.setSearchQuery
                 (Gallery.openModal shownExample
                    (describe Posix "" "top.png" 1%N))
                 "gif")
              (describe Posix "" "top.png" 1%N)) as [_ Hnext].
  - reflexivity.
  - vm_compute. intros img [<-|[]]. discriminate.
  - exact Hnext.
Defined.

Lemma keyboard_only_moves_the_viewer_witness :
  Gallery.handleKeyDown Str.toLowerCase shownExample "ArrowRight"
  = shownExample
  /\ Gallery.selectedImage
       (Gallery.handleKeyDown Str.toLowerCase
          (Gallery.openModal shownExample (describe Posix "" "top.png" 1%N))
          "Escape")
     = None.
Proof.
  split.
  - destruct (keyboard_only_moves_the_viewer Str.toLowerCase shownExample
                "ArrowRight") as (_ & _ & _ & _ & _ & Hclosed & _).
    apply Hclosed. reflexivity.
  - destruct (keyboard_only_moves_the_viewer Str.toLowerCase
                (Gallery.openModal shownExample
                   (describe Posix "" "top.png" 1%N))
                "Escape") as (_ & _ & _ & _ & _ & _ & Hescape & _).
    apply Hescape. reflexivity.
Defined.
